(** * LocalFileEvalStore: a file-backed store of evaluation runs

  A shallow embedding of [genkit-tools/common/src/eval/localFileEvalStore.ts]
  and the properties of its four operations ([save], [load], [list],
  [delete]) over an explicit file system.

  Layout of the development:
  - JavaScript string primitives used by the store ([slice], [split],
    [join]) and the line iterator of [readline];
  - POSIX [path.resolve];
  - the file system as a finite map from resolved paths to contents, and
    a small state-and-exception monad for the [fs] calls;
  - the JSON and schema layer, which lives outside the store, as a class;
  - the store itself, and the vocabulary its guarantees are stated in;
  - a concrete JSON instance used to run the store on actual inputs;
  - the properties: strings, lines and paths; the operations step by
    step; what the operations guarantee; the store at work. *)

From Stdlib Require Import Ascii.
From stdpp Require Import base option list gmap strings.

Local Open Scope stdpp_scope.

(** ** JavaScript strings

  File contents and identifiers are [string]s: the characters of the text
  as it is on disk, in UTF-8.  The store inspects a text only through its
  delimiter, which is one ASCII character. *)

Module Js.

(** [s.slice(0, -1)]: everything but the last character (of a text that
    ends with an ASCII character, as any text that ends with the
    delimiter does). *)
Fixpoint slice_0_m1 (s : string) : string :=
  match s with
  | EmptyString => EmptyString
  | String _ EmptyString => EmptyString
  | String c s' => String c (slice_0_m1 s')
  end.

(** [s.split(sep)] for a one-character separator.  The result is never
    empty: splitting the empty string gives one empty piece. *)
Fixpoint split (sep : ascii) (s : string) : list string :=
  match s with
  | EmptyString => [EmptyString]
  | String c s' =>
      if decide (c = sep) then EmptyString :: split sep s'
      else match split sep s' with
           | piece :: rest => String c piece :: rest
           | [] => [String c EmptyString]
           end
  end.

(** [pieces.join(sep)]. *)
Fixpoint join (sep : string) (pieces : list string) : string :=
  match pieces with
  | [] => EmptyString
  | [piece] => piece
  | piece :: rest => piece +:+ sep +:+ join sep rest
  end.

(** [c] occurs in [s]. *)
Fixpoint occurs (c : ascii) (s : string) : bool :=
  match s with
  | EmptyString => false
  | String c' s' => bool_decide (c' = c) || occurs c s'
  end.

(** Truthiness of a string: only the empty string is falsy. *)
Definition truthy (s : string) : bool :=
  match s with EmptyString => false | _ => true end.

End Js.

(** ** The line iterator of [readline]

  [readline.createInterface({input})] consumed with [for await] yields the
  lines of the input.  A line ends at CR LF, LF, CR, U+2028 or U+2029
  (the last two as their UTF-8 bytes); the text after the last line end
  is yielded as a final line only when it is not empty. *)

Module Readline.

Definition LF : ascii := "010"%char.
Definition CR : ascii := "013"%char.

Fixpoint lines (s : string) : list string :=
  let continue_line c s' :=
    match lines s' with
    | [] => [String c EmptyString]
    | current :: rest => String c current :: rest
    end in
  match s with
  | EmptyString => []
  | String c s' =>
      if decide (c = LF) then EmptyString :: lines s'
      else if decide (c = CR) then
        match s' with
        | String c' s'' =>
            if decide (c' = LF) then EmptyString :: lines s''
            else EmptyString :: lines s'
        | EmptyString => [EmptyString]
        end
      else if decide (c = "226"%char) then
        match s' with
        | String c1 (String c2 s'') =>
            if decide (c1 = "128"%char ∧ (c2 = "168"%char ∨ c2 = "169"%char))
            then EmptyString :: lines s''
            else continue_line c s'
        | _ => continue_line c s'
        end
      else continue_line c s'
  end.

End Readline.

(** ** POSIX [path.resolve]

  A resolved path is absolute and normalised; it is kept as the list of
  its components, outermost first (["/a/b"] is [["a"; "b"]]). *)

Module Path.

Definition path := list string.

Definition sep : ascii := "/"%char.

(** One step of the normalisation, on the stack of components seen so
    far (innermost first): empty and ["."] segments are dropped, [".."]
    pops one component (and stays at the root). *)
Definition normalize_segment (stack : list string) (seg : string) : list string :=
  if decide (seg = "" ∨ seg = ".") then stack
  else if decide (seg = "..") then tail stack
  else seg :: stack.

Definition is_absolute (p : string) : bool :=
  match p with
  | String c _ => bool_decide (c = sep)
  | EmptyString => false
  end.

(** [path.resolve(base, rel)] for an already resolved [base]. *)
Definition resolve (base : path) (rel : string) : path :=
  rev (fold_left normalize_segment (Js.split sep rel)
         (if is_absolute rel then [] else rev base)).

End Path.

Abbreviation path := Path.path.

(** ** The file system

  Only regular files are modelled: the file system is a finite map from
  resolved paths to contents.  The store never creates a directory other
  than its root, so [mkdirSync] has nothing to record.  A call fails here
  only for a missing file; permissions and disk space are outside the
  model, so [writeFile] and [appendFile] always succeed. *)

Abbreviation fs := (gmap path string).

Inductive error : Type :=
| SyntaxError                            (* thrown by [JSON.parse] *)
| ZodError                               (* thrown by [Schema.parse] *)
| CannotFindEvalRun (evalRunId : string) (* thrown by [delete] *)
| ENOENT (p : path).                     (* a missing file *)

Inductive result (A : Type) : Type :=
| Ok (a : A)
| Err (e : error).

Arguments Ok {A} a.
Arguments Err {A} e.

(** A stored text is malformed when parsing it throws. *)
Definition malformed (e : error) : Prop := e = SyntaxError ∨ e = ZodError.

(** An operation of the store: it runs on a file system, ends normally or
    by an exception, and leaves a file system behind in both cases. *)
Definition IO (A : Type) : Type := fs → result A * fs.

#[global] Instance IO_ret : MRet IO := λ A a st, (Ok a, st).

#[global] Instance IO_bind : MBind IO := λ A B k m st,
  match m st with
  | (Ok a, st') => k a st'
  | (Err e, st') => (Err e, st')
  end.

Definition throw {A : Type} (e : error) : IO A := λ st, (Err e, st).

(** An exception-raising pure computation, run inside an operation. *)
Definition lift {A : Type} (r : result A) : IO A := λ st, (r, st).

Module Fs.

Definition existsSync (p : path) : IO bool :=
  λ st, (Ok (bool_decide (is_Some (st !! p))), st).

Definition mkdirSync (p : path) : IO unit := mret tt.

Definition writeFile (p : path) (data : string) : IO unit :=
  λ st, (Ok tt, <[p := data]> st).

Definition writeFileSync := writeFile.

Definition appendFile (p : path) (data : string) : IO unit :=
  λ st, (Ok tt, <[p := default "" (st !! p) +:+ data]> st).

Definition readFile (p : path) : IO string :=
  λ st, match st !! p with
        | Some data => (Ok data, st)
        | None => (Err (ENOENT p), st)
        end.

Definition unlink (p : path) : IO unit :=
  λ st, match st !! p with
        | Some _ => (Ok tt, delete p st)
        | None => (Err (ENOENT p), st)
        end.

(** [fs.createReadStream(p)] handed to [readline] and drained. *)
Definition readLines (p : path) : IO (list string) :=
  data ← readFile p; mret (Readline.lines data).

End Fs.

(** ** The JSON and schema layer

  [JSON.parse], [JSON.stringify] and the two schemas of [../types/eval]
  are used by the store but not defined by it.  The store is stated over
  any implementation of them.  [None] stands for the exception each
  parser throws. *)

Class Codec : Type := {
  JsValue : Type;
  EvalRunKey : Type;
  EvalRun : Type;
  (** [evalRun.key], [key.evalRunId] and [key.actionRef], which is
      [None] for a key that has none *)
  key : EvalRun → EvalRunKey;
  evalRunId : EvalRunKey → string;
  actionRef : EvalRunKey → option string;
  JSON_parse : string → option JsValue;
  (** [JSON.stringify] at the two types the store serialises *)
  JSON_stringify : EvalRun → string;
  JSON_stringify_key : EvalRunKey → string;
  EvalRunSchema_parse : JsValue → option EvalRun;
  EvalRunKeySchema_parse : JsValue → option EvalRunKey;
}.

(** The query of [list]: [{ filter?: { actionRef?: string } }]. *)
Record EvalKeysFilter : Type := { f_actionRef : option string }.
Record ListEvalKeysRequest : Type := { q_filter : option EvalKeysFilter }.

(** [array.map(f)] for an [f] that may throw: the first exception ends
    the whole map. *)
Fixpoint map_throwing {A B : Type} (f : A → result B) (xs : list A) : result (list B) :=
  match xs with
  | [] => Ok []
  | x :: rest =>
      match f x with
      | Err e => Err e
      | Ok y =>
          match map_throwing f rest with
          | Err e => Err e
          | Ok ys => Ok (y :: ys)
          end
      end
  end.

(** ** The store *)

Section LocalFileEvalStore.

Context `{Codec}.

(** [process.cwd()], already resolved. *)
Variable cwd : path.

Definition INDEX_DELIMITER : string := String Readline.LF EmptyString.

Definition generateRootPath : path := Path.resolve cwd ".genkit/evals".

Definition storeRoot : path := generateRootPath.

Definition getIndexFilePath : path := Path.resolve storeRoot "index.txt".

Definition indexFile : path := getIndexFilePath.

Definition generateFileName (id : string) : string := id +:+ ".json".

(** The record file of a run: [path.resolve(storeRoot, generateFileName(id))]. *)
Definition recordFile (id : string) : path :=
  Path.resolve storeRoot (generateFileName id).

(** [EvalRunKeySchema.parse(JSON.parse(text))] *)
Definition parseLineToKey (text : string) : result EvalRunKey :=
  match JSON_parse text with
  | None => Err SyntaxError
  | Some v =>
      match EvalRunKeySchema_parse v with
      | None => Err ZodError
      | Some k => Ok k
      end
  end.

(** [EvalRunSchema.parse(JSON.parse(text))] *)
Definition parseRecord (text : string) : result EvalRun :=
  match JSON_parse text with
  | None => Err SyntaxError
  | Some v =>
      match EvalRunSchema_parse v with
      | None => Err ZodError
      | Some r => Ok r
      end
  end.

Definition constructor : IO unit :=
  Fs.mkdirSync storeRoot ;;
  present ← Fs.existsSync indexFile;
  if (present : bool) then mret tt else Fs.writeFileSync indexFile "".

Definition save (evalRun : EvalRun) : IO unit :=
  let fileName := generateFileName (evalRunId (key evalRun)) in
  Fs.writeFile (Path.resolve storeRoot fileName) (JSON_stringify evalRun) ;;
  Fs.appendFile indexFile (JSON_stringify_key (key evalRun) +:+ INDEX_DELIMITER).

Definition load (id : string) : IO (option EvalRun) :=
  let filePath := Path.resolve storeRoot (generateFileName id) in
  present ← Fs.existsSync filePath;
  if (present : bool) then
    data ← Fs.readFile filePath;
    r ← lift (parseRecord data);
    mret (Some r)
  else mret None.

(** [query?.filter?.actionRef] *)
Definition query_actionRef (query : option ListEvalKeysRequest) : option string :=
  q ← query; f ← q_filter q; f_actionRef f.

(** [list(query)].  Named [listEvalKeys] because [list] is taken. *)
Definition listEvalKeys (query : option ListEvalKeysRequest) : IO (list EvalRunKey) :=
  data ← Fs.readFile indexFile;
  keys ← lift (if Js.truthy data
               then map_throwing parseLineToKey
                      (Js.split Readline.LF (Js.slice_0_m1 data))
               else Ok []);
  match query_actionRef query with
  | Some wanted =>
      if Js.truthy wanted
      then mret (filter (λ k, actionRef k = Some wanted) keys)
      else mret keys
  | None => mret keys
  end.

(** The loop of [deleteEvalRunFromIndex]: [entries] collects, in order,
    the lines whose key has another id; a line that does not parse ends
    the loop with its exception. *)
Fixpoint retained_entries (id : string) (lines entries : list string) : result (list string) :=
  match lines with
  | [] => Ok entries
  | line :: rest =>
      match parseLineToKey line with
      | Err e => Err e
      | Ok entry =>
          retained_entries id rest
            (if decide (evalRunId entry ≠ id) then entries ++ [line] else entries)
      end
  end.

Definition deleteEvalRunFromIndex (id : string) : IO unit :=
  lines ← Fs.readLines getIndexFilePath;
  entries ← lift (retained_entries id lines []);
  Fs.writeFile getIndexFilePath (Js.join INDEX_DELIMITER entries +:+ INDEX_DELIMITER).

(** [delete(evalRunId)].  Named [deleteEvalRun] because [delete] is the
    map operation. *)
Definition deleteEvalRun (id : string) : IO unit :=
  let filePath := Path.resolve storeRoot (generateFileName id) in
  present ← Fs.existsSync filePath;
  if (present : bool) then
    Fs.unlink filePath ;; deleteEvalRunFromIndex id
  else throw (CannotFindEvalRun id).

End LocalFileEvalStore.

(** ** Vocabulary of the guarantees *)

Section Vocabulary.

Context `{Codec}.

Variable cwd : path.

(** A text that [parseLineToKey] (or [parseRecord]) rejects: it is not
    JSON, or its value does not conform to the schema. *)
Definition malformed_line (text : string) : Prop :=
  JSON_parse text = None ∨
  ∃ v, JSON_parse text = Some v ∧ EvalRunKeySchema_parse v = None.

Definition malformed_record (text : string) : Prop :=
  JSON_parse text = None ∨
  ∃ v, JSON_parse text = Some v ∧ EvalRunSchema_parse v = None.

(** The lines [list] parses: none for an empty index, else the pieces
    of the text without its last character. *)
Definition index_lines (data : string) : list string :=
  if Js.truthy data then Js.split Readline.LF (Js.slice_0_m1 data) else [].

(** The line of a run other than [id]: what the rebuild of the index keeps. *)
Definition keeps (id line : string) : bool :=
  match parseLineToKey line with
  | Ok entry => bool_decide (evalRunId entry ≠ id)
  | Err _ => false
  end.

(** An id usable as a file name component: not empty, no separator. *)
Definition usable_as_filename (id : string) : Prop :=
  id ≠ "" ∧ Js.occurs Path.sep id = false.

(** A run is valid when the run schema accepts its serialisation and
    gives the same run back. *)
Definition valid_run (r : EvalRun) : Prop :=
  parseRecord (JSON_stringify r) = Ok r.

(** A successful change of the store. *)
Inductive mutation : Type :=
| Save (r : EvalRun)
| Delete (id : string).

Definition apply_mutation (m : mutation) : IO unit :=
  match m with
  | Save r => save cwd r
  | Delete id => deleteEvalRun cwd id
  end.

Definition ends_with_delimiter (data : string) : Prop :=
  ∃ body, data = body +:+ INDEX_DELIMITER.

(** Each line followed by the delimiter. *)
Fixpoint delimited (lines : list string) : string :=
  match lines with
  | [] => ""
  | line :: rest => line +:+ INDEX_DELIMITER +:+ delimited rest
  end.

(** The run a change is about. *)
Definition mutation_id (m : mutation) : string :=
  match m with
  | Save r => evalRunId (key r)
  | Delete id => id
  end.

(** A caller that issues changes one after the other and goes on after a
    failed one: the files after the whole sequence. *)
Definition run_mutations (ms : list mutation) (st : fs) : fs :=
  fold_left (λ st m, snd (apply_mutation m st)) ms st.

(** The index exists and is empty or ends with the delimiter. *)
Definition tidy_index (st : fs) : Prop :=
  ∃ data, st !! indexFile cwd = Some data ∧ (data = "" ∨ ends_with_delimiter data).

(** The index exists and starts with the delimiter. *)
Definition index_starts_with_delimiter (st : fs) : Prop :=
  ∃ rest, st !! indexFile cwd = Some (INDEX_DELIMITER +:+ rest).

(** A text in which only the line feed ends a line for [readline]: it
    holds no carriage return and no character whose UTF-8 form starts
    with the byte 226, as U+2028 and U+2029 do. *)
Definition only_LF_ends_lines (text : string) : Prop :=
  Js.occurs Readline.CR text = false ∧ Js.occurs "226"%char text = false.

End Vocabulary.

(** ** The cached store

  [getEvalStore] and [reset] work on the static field [cachedEvalStore].
  An instance is the two fields its constructor sets; the process is its
  working directory, the static field and the files. *)

Record Store : Type := { this_storeRoot : path; this_indexFile : path }.

Record process : Type := {
  proc_cwd : path;
  cachedEvalStore : option Store;
  proc_files : fs;
}.

(** [process.chdir(dir)] for a resolved [dir]. *)
Definition chdir (dir : path) (p : process) : process :=
  {| proc_cwd := dir; cachedEvalStore := cachedEvalStore p; proc_files := proc_files p |}.

(** [new LocalFileEvalStore()] *)
Definition new_LocalFileEvalStore (p : process) : result Store * process :=
  match constructor (proc_cwd p) (proc_files p) with
  | (Ok _, files) =>
      (Ok {| this_storeRoot := storeRoot (proc_cwd p);
             this_indexFile := indexFile (proc_cwd p) |},
       {| proc_cwd := proc_cwd p; cachedEvalStore := cachedEvalStore p;
          proc_files := files |})
  | (Err e, files) =>
      (Err e,
       {| proc_cwd := proc_cwd p; cachedEvalStore := cachedEvalStore p;
          proc_files := files |})
  end.

Definition getEvalStore (p : process) : result Store * process :=
  match cachedEvalStore p with
  | Some store => (Ok store, p)
  | None =>
      match new_LocalFileEvalStore p with
      | (Ok store, p') =>
          (Ok store,
           {| proc_cwd := proc_cwd p'; cachedEvalStore := Some store;
              proc_files := proc_files p' |})
      | (Err e, p') => (Err e, p')
      end
  end.


(** ** A concrete JSON layer

  An executable instance of [Codec], used to run the store on actual
  index and record texts.  Values are JSON values; a number is kept as its
  token, so no floating-point arithmetic is involved.  Escapes of the form
  [\uXXXX] are decoded for code points below 128 and rejected above (the
  texts the store is run on here are ASCII). *)

Module Json.

#[warnings="-register-all"]
Inductive value : Type :=
| Null
| Bool (b : bool)
| Num (token : string)
| Str (s : string)
| Arr (elements : list value)
| Obj (members : list (string * value)).

Definition quote : ascii := "034"%char.
Definition backslash : ascii := "092"%char.

(** Writes ['] for the double quote, to keep JSON texts readable. *)
Fixpoint js (s : string) : string :=
  match s with
  | EmptyString => EmptyString
  | String c s' => String (if decide (c = "'"%char) then quote else c) (js s')
  end.

Definition hex_digit (n : nat) : ascii :=
  ascii_of_nat (if decide (n < 10) then 48 + n else 87 + n).

Definition escape_char (c : ascii) : string :=
  if decide (c = quote) then String backslash (String quote EmptyString)
  else if decide (c = backslash) then String backslash (String backslash EmptyString)
  else if decide (c = "008"%char) then String backslash "b"
  else if decide (c = "012"%char) then String backslash "f"
  else if decide (c = "010"%char) then String backslash "n"
  else if decide (c = "013"%char) then String backslash "r"
  else if decide (c = "009"%char) then String backslash "t"
  else if decide (nat_of_ascii c < 32) then
    String backslash ("u00" +:+ String (hex_digit (nat_of_ascii c / 16))
                                  (String (hex_digit (nat_of_ascii c `mod` 16)) EmptyString))
  else String c EmptyString.

Fixpoint escape (s : string) : string :=
  match s with
  | EmptyString => EmptyString
  | String c s' => escape_char c +:+ escape s'
  end.

Definition quoted (s : string) : string :=
  String quote (escape s +:+ String quote EmptyString).

(** [JSON.stringify(v)], without indentation. *)
Fixpoint stringify (v : value) : string :=
  match v with
  | Null => "null"
  | Bool true => "true"
  | Bool false => "false"
  | Num token => token
  | Str s => quoted s
  | Arr elements => "[" +:+ Js.join "," (map stringify elements) +:+ "]"
  | Obj members =>
      "{" +:+ Js.join "," (map (λ m, quoted m.1 +:+ ":" +:+ stringify m.2) members) +:+ "}"
  end.

Definition is_ws (c : ascii) : bool :=
  bool_decide (c = " "%char ∨ c = "009"%char ∨ c = "010"%char ∨ c = "013"%char).

Fixpoint skip_ws (s : string) : string :=
  match s with
  | String c s' => if is_ws c then skip_ws s' else s
  | EmptyString => EmptyString
  end.

Definition is_digit (c : ascii) : bool :=
  bool_decide (48 ≤ nat_of_ascii c ≤ 57).

Definition hex_value (c : ascii) : option nat :=
  let n := nat_of_ascii c in
  if decide (48 ≤ n ≤ 57) then Some (n - 48)
  else if decide (97 ≤ n ≤ 102) then Some (n - 87)
  else if decide (65 ≤ n ≤ 70) then Some (n - 55)
  else None.

(** The characters of a string literal after its opening quote, and the
    text after its closing quote. *)
Fixpoint parse_string (s : string) : option (string * string) :=
  let keep c rest := '(body, after) ← parse_string rest; Some (String c body, after) in
  match s with
  | EmptyString => None
  | String c s' =>
      if decide (c = quote) then Some (EmptyString, s')
      else if decide (c = backslash) then
        match s' with
        | String e s'' =>
            if decide (e = quote ∨ e = backslash ∨ e = "/"%char) then keep e s''
            else if decide (e = "b"%char) then keep "008"%char s''
            else if decide (e = "f"%char) then keep "012"%char s''
            else if decide (e = "n"%char) then keep "010"%char s''
            else if decide (e = "r"%char) then keep "013"%char s''
            else if decide (e = "t"%char) then keep "009"%char s''
            else if decide (e = "u"%char) then
              match s'' with
              | String h1 (String h2 (String h3 (String h4 s3))) =>
                  d1 ← hex_value h1; d2 ← hex_value h2; d3 ← hex_value h3; d4 ← hex_value h4;
                  if decide (d1 = 0 ∧ d2 = 0 ∧ d3 < 8)
                  then keep (ascii_of_nat (16 * d3 + d4)) s3
                  else None
              | _ => None
              end
            else None
        | EmptyString => None
        end
      else if decide (nat_of_ascii c < 32) then None
      else keep c s'
  end.

(** The longest prefix of digits. *)
Fixpoint take_digits (s : string) : string * string :=
  match s with
  | String c s' =>
      if is_digit c then let '(ds, rest) := take_digits s' in (String c ds, rest)
      else (EmptyString, s)
  | EmptyString => (EmptyString, EmptyString)
  end.

(** A number token: an optional minus sign; a zero or a digit string with
    no leading zero; an optional fraction; an optional exponent. *)
Definition parse_number (s : string) : option (string * string) :=
  let '(sign, s1) :=
    match s with
    | String "-"%char s' => ("-", s')
    | _ => (EmptyString, s)
    end in
  let '(int, s2) := take_digits s1 in
  match int with
  | EmptyString => None
  | String "0"%char (String _ _) => None
  | _ =>
      frac ←
        match s2 with
        | String "."%char s' =>
            let '(ds, rest) := take_digits s' in
            if Js.truthy ds then Some ("." +:+ ds, rest) else None
        | _ => Some (EmptyString, s2)
        end;
      exp ←
        match frac.2 with
        | String e s' =>
            if decide (e = "e"%char ∨ e = "E"%char) then
              let '(esign, s'') :=
                match s' with
                | String c rest =>
                    if decide (c = "+"%char ∨ c = "-"%char)
                    then (String c EmptyString, rest) else (EmptyString, s')
                | EmptyString => (EmptyString, s')
                end in
              let '(ds, rest) := take_digits s'' in
              if Js.truthy ds then Some (String e esign +:+ ds, rest) else None
            else Some (EmptyString, frac.2)
        | EmptyString => Some (EmptyString, frac.2)
        end;
      Some (sign +:+ int +:+ frac.1 +:+ exp.1, exp.2)
  end.

(** [s] starts with [word]; the rest of [s]. *)
Fixpoint strip_prefix (word s : string) : option string :=
  match word, s with
  | EmptyString, _ => Some s
  | String c word', String d s' => if decide (c = d) then strip_prefix word' s' else None
  | _, EmptyString => None
  end.

(** Recursive descent, bounded by [fuel] nested calls. *)
Fixpoint parse_value (fuel : nat) (s : string) : option (value * string) :=
  match fuel with
  | 0 => None
  | S fuel =>
      match skip_ws s with
      | EmptyString => None
      | String c s' as s0 =>
          if decide (c = quote) then
            '(body, rest) ← parse_string s'; Some (Str body, rest)
          else if decide (c = "["%char) then
            match skip_ws s' with
            | String "]"%char rest => Some (Arr [], rest)
            | _ => '(vs, rest) ← parse_elements fuel s'; Some (Arr vs, rest)
            end
          else if decide (c = "{"%char) then
            match skip_ws s' with
            | String "}"%char rest => Some (Obj [], rest)
            | _ => '(ms, rest) ← parse_members fuel s'; Some (Obj ms, rest)
            end
          else if decide (c = "t"%char) then rest ← strip_prefix "true" s0; Some (Bool true, rest)
          else if decide (c = "f"%char) then rest ← strip_prefix "false" s0; Some (Bool false, rest)
          else if decide (c = "n"%char) then rest ← strip_prefix "null" s0; Some (Null, rest)
          else '(token, rest) ← parse_number s0; Some (Num token, rest)
      end
  end
with parse_elements (fuel : nat) (s : string) : option (list value * string) :=
  match fuel with
  | 0 => None
  | S fuel =>
      '(v, rest) ← parse_value fuel s;
      match skip_ws rest with
      | String ","%char rest' => '(vs, rest'') ← parse_elements fuel rest'; Some (v :: vs, rest'')
      | String "]"%char rest' => Some ([v], rest')
      | _ => None
      end
  end
with parse_members (fuel : nat) (s : string) : option (list (string * value) * string) :=
  match fuel with
  | 0 => None
  | S fuel =>
      match skip_ws s with
      | String c s' =>
          if decide (c = quote) then
            '(name, rest) ← parse_string s';
            match skip_ws rest with
            | String ":"%char rest' =>
                '(v, rest'') ← parse_value fuel rest';
                match skip_ws rest'' with
                | String ","%char rest3 =>
                    '(ms, rest4) ← parse_members fuel rest3; Some ((name, v) :: ms, rest4)
                | String "}"%char rest3 => Some ([(name, v)], rest3)
                | _ => None
                end
            | _ => None
            end
          else None
      | EmptyString => None
      end
  end.

(** [JSON.parse(text)]: one value, then only white space. *)
Definition parse (text : string) : option value :=
  '(v, rest) ← parse_value (S (String.length text)) text;
  match skip_ws rest with
  | EmptyString => Some v
  | _ => None
  end.

(** [object[name]]: the last member of that name. *)
Fixpoint member (name : string) (members : list (string * value)) : option value :=
  match members with
  | [] => None
  | (n, v) :: rest =>
      match member name rest with
      | Some v' => Some v'
      | None => if decide (n = name) then Some v else None
      end
  end.

End Json.

(** ** The schemas over the concrete JSON layer

  Modelled from the spec: the schemas of [../types/eval] are not part of
  the store's source.  A key is an object with string members
  [evalRunId] and [actionRef]; a run is an object with a [key] and an
  array of [results], which the store does not interpret.  As the schema
  library does for objects, members the schema does not name are dropped. *)

Module Node.

Record RunKey : Type := { k_evalRunId : string; k_actionRef : string }.

Record Run : Type := { r_key : RunKey; r_results : list Json.value }.

Definition as_string (v : Json.value) : option string :=
  match v with Json.Str s => Some s | _ => None end.

Definition key_to_json (k : RunKey) : Json.value :=
  Json.Obj [("evalRunId", Json.Str (k_evalRunId k)); ("actionRef", Json.Str (k_actionRef k))].

Definition run_to_json (r : Run) : Json.value :=
  Json.Obj [("key", key_to_json (r_key r)); ("results", Json.Arr (r_results r))].

Definition key_schema (v : Json.value) : option RunKey :=
  match v with
  | Json.Obj members =>
      id ← Json.member "evalRunId" members ≫= as_string;
      ref ← Json.member "actionRef" members ≫= as_string;
      Some {| k_evalRunId := id; k_actionRef := ref |}
  | _ => None
  end.

Definition run_schema (v : Json.value) : option Run :=
  match v with
  | Json.Obj members =>
      k ← Json.member "key" members ≫= key_schema;
      results ← Json.member "results" members;
      match results with
      | Json.Arr elements => Some {| r_key := k; r_results := elements |}
      | _ => None
      end
  | _ => None
  end.

#[global] Instance codec : Codec := {|
  JsValue := Json.value;
  EvalRunKey := RunKey;
  EvalRun := Run;
  key := r_key;
  evalRunId := k_evalRunId;
  actionRef := λ k, Some (k_actionRef k);
  JSON_parse := Json.parse;
  JSON_stringify := λ r, Json.stringify (run_to_json r);
  JSON_stringify_key := λ k, Json.stringify (key_to_json k);
  EvalRunSchema_parse := run_schema;
  EvalRunKeySchema_parse := key_schema;
|}.

(** A working directory and three runs to run the store on. *)
Definition cwd : path := ["home"; "dev"; "app"].

Definition run (id ref : string) (results : list Json.value) : Run :=
  {| r_key := {| k_evalRunId := id; k_actionRef := ref |}; r_results := results |}.

Definition run1 : Run := run "r1" "a" [Json.Num "1"].
Definition run2 : Run := run "r2" "b" [].
Definition run3 : Run := run "r3" "a" [].

(** The index lines of the three runs. *)
Definition line1 : string := Json.js "{'evalRunId':'r1','actionRef':'a'}".
Definition line2 : string := Json.js "{'evalRunId':'r2','actionRef':'b'}".
Definition line3 : string := Json.js "{'evalRunId':'r3','actionRef':'a'}".

Definition filter_by (ref : string) : option ListEvalKeysRequest :=
  Some {| q_filter := Some {| f_actionRef := Some ref |} |}.

(** File systems: nothing at all; the store just initialised; after
    [run1] is saved; after [run1] is deleted again; after the three runs
    are saved. *)
Definition no_files : fs := ∅.

Definition fresh : fs := snd (constructor cwd no_files).

Definition one_run : fs := snd (save cwd run1 fresh).

Definition lone_delimiter : fs := snd (deleteEvalRun cwd "r1" one_run).

Definition three_runs : fs :=
  snd ((save cwd run1 ;; save cwd run2 ;; save cwd run3) fresh).

(** The store after [run1] is saved, with its record overwritten by a
    text that is not JSON; and with a line that is not JSON added to its
    index. *)
Definition broken_record : fs := <[ recordFile cwd "r1" := "{" ]> one_run.

Definition broken_index : fs :=
  <[ indexFile cwd := line1 +:+ INDEX_DELIMITER +:+ "oops" +:+ INDEX_DELIMITER ]> one_run.

Definition run_outside : Run := run "../x" "a" [].

(** The index of [three_runs]. *)
Definition three_lines : string :=
  line1 +:+ INDEX_DELIMITER +:+ line2 +:+ INDEX_DELIMITER +:+ line3 +:+ INDEX_DELIMITER.



(** A process that has not asked for the store yet, and another working
    directory. *)
Definition started : process :=
  {| proc_cwd := cwd; cachedEvalStore := None; proc_files := no_files |}.

Definition elsewhere : path := ["srv"; "work"].

End Node.

(** * Properties *)

#[local] Arguments String.append : simpl nomatch.

(** ** Strings *)

Section JsFacts.

Variable sep : ascii.

Lemma append_empty_r (s : string) : s +:+ "" = s.
Proof. induction s as [|c s IH]; simpl; [done | by rewrite IH]. Qed.

Lemma append_assoc (a b c : string) : (a +:+ b) +:+ c = a +:+ (b +:+ c).
Proof. induction a as [|x a IH]; simpl; [done | by rewrite IH]. Qed.

Lemma occurs_append (a b : string) :
  Js.occurs sep (a +:+ b) = Js.occurs sep a || Js.occurs sep b.
Proof.
  induction a as [|c a IH]; simpl; [done |].
  rewrite IH. by rewrite orb_assoc.
Qed.

Lemma slice_append_char (s : string) (c : ascii) :
  Js.slice_0_m1 (s +:+ String c "") = s.
Proof.
  induction s as [|a s IH]; [done |].
  simpl. rewrite IH. by destruct s.
Qed.

Lemma split_not_nil (s : string) : Js.split sep s ≠ [].
Proof.
  destruct s as [|c s]; simpl; [done |].
  case_decide; [done |]. by destruct (Js.split sep s).
Qed.

(** A text without separator is a single piece. *)
Lemma split_no_sep (p : string) :
  Js.occurs sep p = false → Js.split sep p = [p].
Proof.
  induction p as [|c p IH]; simpl; [done |].
  intros [Hc Hp]%orb_false_elim. apply bool_decide_eq_false in Hc.
  rewrite decide_False by done. by rewrite IH.
Qed.

(** The first separator of a text ends its first piece. *)
Lemma split_first_piece (p s : string) :
  Js.occurs sep p = false →
  Js.split sep (p +:+ String sep s) = p :: Js.split sep s.
Proof.
  induction p as [|c p IH]; simpl.
  - intros _. by rewrite decide_True.
  - intros [Hc Hp]%orb_false_elim. apply bool_decide_eq_false in Hc.
    rewrite decide_False by done. by rewrite IH.
Qed.

(** [split] undoes [join] on pieces that hold no separator. *)
Lemma split_join (pieces : list string) :
  pieces ≠ [] →
  Forall (λ p, Js.occurs sep p = false) pieces →
  Js.split sep (Js.join (String sep "") pieces) = pieces.
Proof.
  induction pieces as [|p rest IH]; [done |].
  intros _ Hall. apply Forall_cons in Hall as [Hp Hrest].
  destruct rest as [|q rest].
  - simpl. by apply split_no_sep.
  - change (Js.join (String sep "") (p :: q :: rest))
      with (p +:+ String sep (Js.join (String sep "") (q :: rest))).
    rewrite split_first_piece by done. by rewrite IH.
Qed.

(** Text appended after the last separator extends the last piece. *)
Lemma split_append_no_sep (a b : string) :
  Js.occurs sep b = false →
  ∃ init l, Js.split sep (a +:+ b) = init ++ [l +:+ b].
Proof.
  intros Hb. induction a as [|c a (init & l & IH)]; simpl.
  - exists [], "". by rewrite split_no_sep.
  - case_decide.
    + exists ("" :: init), l. by rewrite IH.
    + rewrite IH. destruct init as [|p init]; simpl.
      * by exists [], (String c l).
      * by exists (String c p :: init), l.
Qed.

(** A separator in the middle splits the pieces of both sides apart. *)
Lemma split_append_sep (a b : string) :
  Js.split sep (a +:+ String sep b) = Js.split sep a ++ Js.split sep b.
Proof.
  induction a as [|c a IH]; simpl.
  - by rewrite decide_True.
  - case_decide; rewrite IH; [done |].
    pose proof (split_not_nil a). by destruct (Js.split sep a).
Qed.

End JsFacts.

(** ** Lines of [readline] *)

Lemma lines_continue (c : ascii) (ls : list string) :
  c ≠ Readline.LF →
  Forall (λ l, Js.occurs Readline.LF l = false) ls →
  Forall (λ l, Js.occurs Readline.LF l = false)
    (match ls with
     | [] => [String c ""]
     | current :: rest => String c current :: rest
     end).
Proof.
  intros Hc Hls. destruct ls as [|current rest].
  - apply Forall_singleton. simpl. by rewrite bool_decide_eq_false_2.
  - apply Forall_cons in Hls as [? ?]. apply Forall_cons. split; [|done].
    simpl. by rewrite bool_decide_eq_false_2.
Qed.

Lemma lines_no_LF_bounded (n : nat) (s : string) :
  String.length s ≤ n →
  Forall (λ l, Js.occurs Readline.LF l = false) (Readline.lines s).
Proof.
  revert s. induction n as [|n IH]; intros s Hlen.
  { destruct s; [constructor | simpl in Hlen; lia]. }
  destruct s as [|c s]; [constructor |].
  simpl in Hlen. cbn [Readline.lines].
  assert (Hs : Forall (λ l, Js.occurs Readline.LF l = false) (Readline.lines s))
    by (apply IH; lia).
  case_decide; [by apply Forall_cons |].
  case_decide.
  { destruct s as [|c' s]; [by apply Forall_singleton |].
    case_decide; apply Forall_cons; split; try done.
    apply IH. simpl in Hlen. lia. }
  case_decide; [| by apply lines_continue].
  remember (Readline.lines s) as ls eqn:Els.
  destruct s as [|c1 [|c2 s]]; cbv iota beta; try by apply lines_continue.
  case_decide; [| by apply lines_continue].
  apply Forall_cons. split; [done |]. apply IH. simpl in Hlen. lia.
Qed.

(** No line that [readline] yields holds a line feed. *)
Lemma lines_no_LF (s : string) :
  Forall (λ l, Js.occurs Readline.LF l = false) (Readline.lines s).
Proof. by apply (lines_no_LF_bounded (String.length s)). Qed.

(** ** Paths *)

Ltac peel_name stem H :=
  repeat (destruct stem as [|? stem]; simpl in H; [discriminate H |];
          injection H as _ H);
  try (destruct stem; discriminate H).

Lemma json_name_not_index (stem : string) : stem +:+ ".json" ≠ "index.txt".
Proof. intros Heq. peel_name stem Heq. Qed.

Lemma json_name_not_skipped (stem : string) :
  ¬ (stem +:+ ".json" = "" ∨ stem +:+ ".json" = ".").
Proof. intros [Heq | Heq]; peel_name stem Heq. Qed.

Lemma json_name_not_parent (stem : string) : stem +:+ ".json" ≠ "..".
Proof. intros Heq. peel_name stem Heq. Qed.

(** Whatever the id, its record file is a [.json] file. *)
Lemma resolve_json_name (base : path) (id : string) :
  ∃ dir stem, Path.resolve base (id +:+ ".json") = dir ++ [stem +:+ ".json"].
Proof.
  unfold Path.resolve.
  destruct (split_append_no_sep Path.sep id ".json") as (init & stem & ->); [done |].
  rewrite fold_left_app. simpl. unfold Path.normalize_segment at 1.
  rewrite (decide_False (P := _ ∨ _)) by apply json_name_not_skipped.
  rewrite decide_False by apply json_name_not_parent.
  simpl. eauto.
Qed.

(** An id without separator names a file directly under the base. *)
Lemma resolve_usable_name (base : path) (id : string) :
  Js.occurs Path.sep id = false →
  Path.resolve base (id +:+ ".json") = base ++ [id +:+ ".json"].
Proof.
  intros Hid. unfold Path.resolve.
  rewrite split_no_sep by (by rewrite occurs_append, Hid).
  replace (Path.is_absolute (id +:+ ".json")) with false.
  2: { destruct id as [|c id]; [done |]. simpl in *.
       by apply orb_false_elim in Hid as [-> _]. }
  simpl. unfold Path.normalize_segment.
  rewrite (decide_False (P := _ ∨ _)) by apply json_name_not_skipped.
  rewrite decide_False by apply json_name_not_parent.
  simpl. by rewrite rev_involutive.
Qed.

(** ** The operations, step by step *)

Ltac run_io :=
  unfold Fs.readLines, Fs.mkdirSync, Fs.writeFileSync;
  unfold mbind, mret, IO_bind, IO_ret, throw, lift,
    Fs.existsSync, Fs.writeFile, Fs.appendFile, Fs.readFile, Fs.unlink.

Lemma map_throwing_Forall2 {A B : Type} (f : A → result B) (xs : list A) (ys : list B) :
  map_throwing f xs = Ok ys ↔ Forall2 (λ x y, f x = Ok y) xs ys.
Proof.
  revert ys. induction xs as [|x xs IH]; intros ys; simpl.
  - split; [intros [= <-]; constructor | by intros ->%Forall2_nil_inv_l].
  - split.
    + destruct (f x) as [y|] eqn:Hx; [|done].
      destruct (map_throwing f xs) as [ys'|] eqn:Hxs; [|done].
      intros [= <-]. constructor; [done | by apply IH].
    + intros (y & ys' & Hx & Hxs & ->)%Forall2_cons_inv_l.
      apply IH in Hxs. by rewrite Hx, Hxs.
Qed.

Lemma map_throwing_Err {A B : Type} (f : A → result B) (xs : list A) (x : A) (e : error) :
  x ∈ xs → f x = Err e → ∃ e' x', x' ∈ xs ∧ f x' = Err e' ∧ map_throwing f xs = Err e'.
Proof.
  induction xs as [|x0 xs IH]; [by intros ?%elem_of_nil |].
  intros Hin Hx. simpl.
  destruct (f x0) as [y|e0] eqn:Hx0.
  - apply elem_of_cons in Hin as [-> | Hin]; [congruence |].
    destruct (IH Hin Hx) as (e' & x' & Hin' & Hx' & ->).
    exists e', x'. split_and!; [apply elem_of_cons; by right | done..].
  - exists e0, x0. split_and!; [apply elem_of_cons; by left | done..].
Qed.

Section StoreFacts.

Context `{Codec}.

Variable cwd : path.

Lemma parseLineToKey_Err (text : string) :
  malformed_line text ↔ ∃ e, parseLineToKey text = Err e.
Proof.
  unfold malformed_line, parseLineToKey. split.
  - intros [-> | (v & -> & ->)]; eauto.
  - intros [e He]. destruct (JSON_parse text) as [v|]; [right | by left].
    exists v. split; [done |]. by destruct (EvalRunKeySchema_parse v).
Qed.

Lemma parseLineToKey_malformed (text : string) (e : error) :
  parseLineToKey text = Err e → malformed e.
Proof.
  unfold parseLineToKey, malformed.
  destruct (JSON_parse text) as [v|]; [| intros [= <-]; by left].
  destruct (EvalRunKeySchema_parse v); [done | intros [= <-]; by right].
Qed.

Lemma parseRecord_malformed (text : string) (e : error) :
  parseRecord text = Err e → malformed e.
Proof.
  unfold parseRecord, malformed.
  destruct (JSON_parse text) as [v|]; [| intros [= <-]; by left].
  destruct (EvalRunSchema_parse v); [done | intros [= <-]; by right].
Qed.

Lemma indexFile_unfold : indexFile cwd = storeRoot cwd ++ ["index.txt"].
Proof.
  unfold indexFile, getIndexFilePath, Path.resolve. simpl.
  unfold Path.normalize_segment. simpl. by rewrite rev_involutive.
Qed.

(** The record file of a run is never the index file. *)
Lemma recordFile_not_indexFile (id : string) : recordFile cwd id ≠ indexFile cwd.
Proof.
  rewrite indexFile_unfold. unfold recordFile, generateFileName.
  destruct (resolve_json_name (storeRoot cwd) id) as (dir & stem & ->).
  intros [_ Heq]%app_inj_tail. by apply json_name_not_index in Heq.
Qed.

Lemma retained_entries_Ok (id : string) (lines entries kept : list string) :
  retained_entries id lines entries = Ok kept →
  Forall (λ line, ∃ k, parseLineToKey line = Ok k) lines ∧
  kept = entries ++ filter (keeps id) lines.
Proof.
  revert entries. induction lines as [|line lines IH]; intros entries; simpl.
  - intros [= <-]. split; [constructor | by rewrite app_nil_r].
  - destruct (parseLineToKey line) as [entry|] eqn:Hline; [|done].
    assert (Hkeeps : keeps id line = bool_decide (evalRunId entry ≠ id))
      by (unfold keeps; by rewrite Hline).
    intros [Hall ->]%IH. split; [constructor; eauto |].
    rewrite filter_cons. destruct (decide (evalRunId entry ≠ id)) as [Hne | Heq].
    + rewrite decide_True by (rewrite Hkeeps; by apply bool_decide_pack).
      by rewrite <-app_assoc.
    + rewrite decide_False; [done |].
      rewrite Hkeeps. by intros ?%bool_decide_unpack.
Qed.

Lemma retained_entries_Err (id : string) (lines entries : list string) (line : string) :
  line ∈ lines → malformed_line line →
  ∃ e, malformed e ∧ retained_entries id lines entries = Err e.
Proof.
  intros Hin [e0 Hbad]%parseLineToKey_Err. revert entries Hin.
  induction lines as [|line0 lines IH]; intros entries; [by intros ?%elem_of_nil |].
  intros Hin. simpl.
  destruct (parseLineToKey line0) as [entry|e] eqn:Hline0.
  - apply elem_of_cons in Hin as [-> | Hin]; [congruence | by apply IH].
  - exists e. split; [by eapply parseLineToKey_malformed | done].
Qed.

Lemma save_run (r : EvalRun) (st : fs) :
  save cwd r st =
    (Ok tt,
     <[indexFile cwd := default "" (st !! indexFile cwd)
                        +:+ (JSON_stringify_key (key r) +:+ INDEX_DELIMITER)]>
       (<[recordFile cwd (evalRunId (key r)) := JSON_stringify r]> st)).
Proof.
  unfold save. run_io. simpl.
  fold (recordFile cwd (evalRunId (key r))).
  by rewrite lookup_insert_ne by apply recordFile_not_indexFile.
Qed.

Lemma load_run (id : string) (st : fs) :
  load cwd id st =
    match st !! recordFile cwd id with
    | None => (Ok None, st)
    | Some data =>
        match parseRecord data with
        | Ok r => (Ok (Some r), st)
        | Err e => (Err e, st)
        end
    end.
Proof.
  unfold load. run_io. simpl. fold (recordFile cwd id).
  destruct (st !! recordFile cwd id) as [data|] eqn:Hfile.
  - rewrite bool_decide_eq_true_2 by eauto. rewrite Hfile.
    by destruct (parseRecord data).
  - rewrite bool_decide_eq_false_2; [done |]. by intros [? ?].
Qed.

Lemma listEvalKeys_run (query : option ListEvalKeysRequest) (st : fs) :
  listEvalKeys cwd query st =
    match st !! indexFile cwd with
    | None => (Err (ENOENT (indexFile cwd)), st)
    | Some data =>
        match map_throwing parseLineToKey (index_lines data) with
        | Err e => (Err e, st)
        | Ok keys =>
            (Ok match query_actionRef query with
                | Some wanted =>
                    if Js.truthy wanted
                    then filter (λ k, actionRef k = Some wanted) keys
                    else keys
                | None => keys
                end, st)
        end
    end.
Proof.
  unfold listEvalKeys, index_lines. run_io.
  destruct (st !! indexFile cwd) as [data|]; [|done].
  destruct (Js.truthy data); simpl.
  - destruct (map_throwing _ _); [|done].
    destruct (query_actionRef query) as [wanted|]; [|done].
    by destruct (Js.truthy wanted).
  - destruct (query_actionRef query) as [wanted|]; [|done].
    by destruct (Js.truthy wanted).
Qed.

Lemma deleteEvalRun_run (id : string) (st : fs) :
  deleteEvalRun cwd id st =
    match st !! recordFile cwd id with
    | None => (Err (CannotFindEvalRun id), st)
    | Some _ =>
        let st1 := delete (recordFile cwd id) st in
        match st !! indexFile cwd with
        | None => (Err (ENOENT (indexFile cwd)), st1)
        | Some data =>
            match retained_entries id (Readline.lines data) [] with
            | Err e => (Err e, st1)
            | Ok entries =>
                (Ok tt,
                 <[indexFile cwd := Js.join INDEX_DELIMITER entries +:+ INDEX_DELIMITER]> st1)
            end
        end
    end.
Proof.
  unfold deleteEvalRun, deleteEvalRunFromIndex. run_io. simpl.
  fold (recordFile cwd id). fold (indexFile cwd).
  destruct (st !! recordFile cwd id) as [data|] eqn:Hfile.
  - rewrite bool_decide_eq_true_2 by eauto. rewrite Hfile.
    rewrite lookup_delete_ne by apply recordFile_not_indexFile.
    destruct (st !! indexFile cwd) as [index|]; [|done].
    by destruct (retained_entries _ _ _).
  - rewrite bool_decide_eq_false_2; [done |]. by intros [? ?].
Qed.

Lemma listEvalKeys_all (st : fs) (data : string) (keys : list EvalRunKey) :
  st !! indexFile cwd = Some data →
  Forall2 (λ line k, parseLineToKey line = Ok k) (index_lines data) keys →
  listEvalKeys cwd None st = (Ok keys, st).
Proof.
  intros Hindex Hkeys%map_throwing_Forall2.
  by rewrite listEvalKeys_run, Hindex, Hkeys.
Qed.

Lemma listEvalKeys_Err
    (query : option ListEvalKeysRequest) (st : fs) (data line : string) :
  st !! indexFile cwd = Some data →
  line ∈ index_lines data →
  malformed_line line →
  ∃ e, malformed e ∧ listEvalKeys cwd query st = (Err e, st).
Proof.
  intros Hindex Hline [e0 Hbad]%parseLineToKey_Err.
  rewrite listEvalKeys_run, Hindex.
  destruct (map_throwing_Err _ _ _ _ Hline Hbad) as (e & line' & _ & He & ->).
  exists e. split; [by eapply parseLineToKey_malformed | done].
Qed.

End StoreFacts.

(** ** What the operations guarantee *)

Section Guarantees.

Context `{Codec}.

Variable cwd : path.

Lemma recordFile_usable (id : string) :
  Js.occurs Path.sep id = false →
  recordFile cwd id = storeRoot cwd ++ [id +:+ ".json"].
Proof. apply resolve_usable_name. Qed.

Lemma truthy_append_delimiter (body : string) :
  Js.truthy (body +:+ INDEX_DELIMITER) = true.
Proof. by destruct body. Qed.

(** The lines [list] reads back from a text that ends with the
    delimiter. *)
Lemma index_lines_delimited (body : string) :
  index_lines (body +:+ INDEX_DELIMITER) = Js.split Readline.LF body.
Proof.
  unfold index_lines. rewrite truthy_append_delimiter.
  unfold INDEX_DELIMITER. by rewrite slice_append_char.
Qed.

(** Lines kept by the rebuild parse to keys of other runs. *)
Lemma kept_lines_parse (id : string) (lines : list string) :
  Forall (λ line, keeps id line) lines →
  ∃ keys, Forall2 (λ line k, parseLineToKey line = Ok k) lines keys ∧
          Forall (λ k, evalRunId k ≠ id) keys.
Proof.
  induction 1 as [|line lines Hline _ (keys & Hparse & Hids)].
  - exists []. split; constructor.
  - unfold keeps in Hline.
    destruct (parseLineToKey line) as [k|] eqn:Hk; [|done].
    apply bool_decide_unpack in Hline.
    exists (k :: keys). split; by constructor.
Qed.

(** C1. Round trip: for a valid run whose id is usable as a file name,
    [save] succeeds, writes the serialised run to [<id>.json] directly
    under the store root, and a [load] of that id right after returns the
    run itself. *)
Theorem save_then_load (r : EvalRun) (st : fs) :
  valid_run r →
  usable_as_filename (evalRunId (key r)) →
  ∃ st', save cwd r st = (Ok tt, st') ∧
         st' !! (storeRoot cwd ++ [evalRunId (key r) +:+ ".json"])
           = Some (JSON_stringify r) ∧
         load cwd (evalRunId (key r)) st' = (Ok (Some r), st').
Proof.
  intros Hvalid [_ Hid]. eexists. split; [apply save_run |].
  pose proof (recordFile_not_indexFile cwd (evalRunId (key r))) as Hne.
  assert (Hfile : ∀ data (st0 : fs),
    <[indexFile cwd := data]>
      (<[recordFile cwd (evalRunId (key r)) := JSON_stringify r]> st0)
      !! recordFile cwd (evalRunId (key r)) = Some (JSON_stringify r)).
  { intros data st0. rewrite lookup_insert_ne by done. apply lookup_insert_eq. }
  split.
  - rewrite <-recordFile_usable by done. apply Hfile.
  - rewrite load_run, Hfile. unfold valid_run in Hvalid. by rewrite Hvalid.
Qed.

(** C3. [load] returns absent, without failing, exactly when the record
    file does not exist.  When the file exists, [load] returns the run
    that [JSON.parse] and the run schema give for its content, and fails
    with the parser's exception when the content is not JSON or does not
    conform; it never returns anything else, and never changes a file. *)
Theorem load_outcomes (id : string) (st : fs) :
  (load cwd id st = (Ok None, st) ↔ st !! recordFile cwd id = None) ∧
  (∀ data, st !! recordFile cwd id = Some data →
     (∀ v r, JSON_parse data = Some v → EvalRunSchema_parse v = Some r →
        load cwd id st = (Ok (Some r), st)) ∧
     (malformed_record data →
        ∃ e, malformed e ∧ load cwd id st = (Err e, st))).
Proof.
  rewrite load_run. split.
  - destruct (st !! recordFile cwd id) as [data|]; [|done].
    split; [|done]. by destruct (parseRecord data).
  - intros data ->. unfold parseRecord, malformed. split.
    + by intros v r -> ->.
    + intros [-> | (v & -> & ->)]; eauto.
Qed.

(** C4. [delete] of a run whose record file does not exist fails with
    the not-found error and leaves every file as it was.  In particular
    [delete] is not idempotent: right after a successful [delete] of an
    id, a second [delete] of that id fails. *)
Theorem delete_absent_fails (id : string) (st : fs) :
  (st !! recordFile cwd id = None →
     deleteEvalRun cwd id st = (Err (CannotFindEvalRun id), st)) ∧
  (∀ st', deleteEvalRun cwd id st = (Ok tt, st') →
     deleteEvalRun cwd id st' = (Err (CannotFindEvalRun id), st')).
Proof.
  split.
  - intros Hfile. by rewrite deleteEvalRun_run, Hfile.
  - intros st'. rewrite (deleteEvalRun_run cwd id st).
    destruct (st !! recordFile cwd id); [|done]. simpl.
    destruct (st !! indexFile cwd); [|done].
    destruct (retained_entries _ _ _); [|done].
    intros [= <-]. rewrite deleteEvalRun_run.
    rewrite lookup_insert_ne by (by apply not_eq_sym, recordFile_not_indexFile).
    by rewrite lookup_delete_eq.
Qed.

(** C5, as amended.  Let the lines of the index parse, in file order, to
    [keys].  With a non-empty [actionRef] filter, [list] returns the keys
    whose [actionRef] is that very string, in file order and with
    repeated ids kept; with no query, no filter, no [actionRef] or an
    empty [actionRef], it returns all of [keys]. *)
Theorem list_filters_by_actionRef
    (query : option ListEvalKeysRequest) (st : fs) (data : string)
    (keys : list EvalRunKey) :
  st !! indexFile cwd = Some data →
  Forall2 (λ line k, parseLineToKey line = Ok k) (index_lines data) keys →
  listEvalKeys cwd query st =
    (Ok match query_actionRef query with
        | Some wanted =>
            if decide (wanted = "") then keys
            else filter (λ k, actionRef k = Some wanted) keys
        | None => keys
        end, st).
Proof.
  intros Hindex Hkeys%map_throwing_Forall2.
  rewrite listEvalKeys_run, Hindex, Hkeys.
  destruct (query_actionRef query) as [wanted|]; [|done].
  by destruct wanted.
Qed.

(** C6. If one of the lines that [list] splits a non-empty index into is
    not JSON or does not conform to the key schema, the whole call fails
    with the parser's exception: no partial list is returned. *)
Theorem list_fails_on_bad_line
    (query : option ListEvalKeysRequest) (st : fs) (data line : string) :
  st !! indexFile cwd = Some data →
  data ≠ "" →
  line ∈ Js.split Readline.LF (Js.slice_0_m1 data) →
  malformed_line line →
  ∃ e, malformed e ∧ listEvalKeys cwd query st = (Err e, st).
Proof.
  intros Hindex Hdata Hline Hbad.
  apply (listEvalKeys_Err cwd query st data line); [done | | done].
  unfold index_lines. by destruct data.
Qed.

Lemma join_delimited (lines : list string) :
  lines ≠ [] →
  Js.join INDEX_DELIMITER lines +:+ INDEX_DELIMITER = delimited lines.
Proof.
  induction lines as [|line [|line' rest] IH]; [done | |]; intros _.
  - done.
  - change (Js.join INDEX_DELIMITER (line :: line' :: rest))
      with (line +:+ INDEX_DELIMITER +:+ Js.join INDEX_DELIMITER (line' :: rest)).
    rewrite !append_assoc, IH by done. done.
Qed.

(** C7. After every successful [save] or [delete] the index exists and
    ends with the delimiter.  A [save] appends the serialised key and the
    delimiter to what the index held.  A [delete] rewrites the index to
    its retained lines joined by the delimiter and one more delimiter,
    which, when a line is retained, is each retained line followed by the
    delimiter. *)
Theorem index_ends_with_delimiter (m : mutation) (st st' : fs) :
  apply_mutation cwd m st = (Ok tt, st') →
  ∃ data, st' !! indexFile cwd = Some data ∧ ends_with_delimiter data ∧
    match m with
    | Save r =>
        data = default "" (st !! indexFile cwd)
               +:+ JSON_stringify_key (key r) +:+ INDEX_DELIMITER
    | Delete id =>
        ∃ old, st !! indexFile cwd = Some old ∧
          let retained := filter (keeps id) (Readline.lines old) in
          data = Js.join INDEX_DELIMITER retained +:+ INDEX_DELIMITER ∧
          (retained ≠ [] → data = delimited retained)
    end.
Proof.
  destruct m as [r | id]; simpl.
  - rewrite save_run. intros [= <-]. eexists.
    split; [apply lookup_insert_eq |]. split; [|done].
    eexists. by rewrite <-append_assoc.
  - rewrite deleteEvalRun_run.
    destruct (st !! recordFile cwd id); [|done]. simpl.
    destruct (st !! indexFile cwd) as [old|]; [|done].
    destruct (retained_entries _ _ _) as [entries|] eqn:Hentries; [|done].
    apply retained_entries_Ok in Hentries as [_ ->]. simpl.
    intros [= <-]. eexists. split; [apply lookup_insert_eq |].
    split; [by eexists |]. exists old. split; [done |]. split; [done |].
    apply join_delimited.
Qed.

(** C8. A store initialised where no index and no record file existed
    has an empty index: [list] returns the empty list, whatever the
    query, and [load] returns absent for every id. *)
Theorem fresh_store_is_empty (st0 : fs) :
  st0 !! indexFile cwd = None →
  (∀ id, st0 !! recordFile cwd id = None) →
  ∃ st, constructor cwd st0 = (Ok tt, st) ∧
        st !! indexFile cwd = Some "" ∧
        (∀ query, listEvalKeys cwd query st = (Ok [], st)) ∧
        (∀ id, load cwd id st = (Ok None, st)).
Proof.
  intros Hindex Hrecords. exists (<[indexFile cwd := ""]> st0).
  split_and!.
  - unfold constructor. run_io. simpl.
    rewrite bool_decide_eq_false_2; [done |]. rewrite Hindex. by intros [? ?].
  - apply lookup_insert_eq.
  - intros query. rewrite listEvalKeys_run, lookup_insert_eq. simpl.
    destruct (query_actionRef query) as [wanted|]; [|done].
    by destruct (Js.truthy wanted).
  - intros id. rewrite load_run.
    rewrite lookup_insert_ne by (by apply not_eq_sym, recordFile_not_indexFile).
    by rewrite Hrecords.
Qed.

(** C9. If a line of the index, as the rebuild reads it, is not JSON or
    does not conform to the key schema, [delete] of an existing run fails
    with the parser's exception after the record file is removed and
    before the index is rewritten: the record is gone and the index is
    what it was. *)
Theorem delete_not_atomic_on_malformed_index
    (id : string) (st : fs) (record data line : string) :
  st !! recordFile cwd id = Some record →
  st !! indexFile cwd = Some data →
  line ∈ Readline.lines data →
  malformed_line line →
  ∃ e st', malformed e ∧ deleteEvalRun cwd id st = (Err e, st') ∧
           st' = delete (recordFile cwd id) st ∧
           st' !! recordFile cwd id = None ∧
           st' !! indexFile cwd = Some data.
Proof.
  intros Hrecord Hindex Hline Hbad.
  destruct (retained_entries_Err id _ [] _ Hline Hbad) as (e & He & Hentries).
  exists e, (delete (recordFile cwd id) st).
  rewrite deleteEvalRun_run, Hrecord, Hindex. simpl. rewrite Hentries.
  split_and!; try done.
  - apply lookup_delete_eq.
  - by rewrite lookup_delete_ne by apply recordFile_not_indexFile.
Qed.

(** C10. A query whose [actionRef] filter is the empty string filters
    nothing: [list] behaves as with no query, and when the lines of the
    index parse to [keys] it returns all of them, whatever their
    [actionRef]. *)
Theorem empty_filter_is_no_filter (st : fs) :
  let query := Some {| q_filter := Some {| f_actionRef := Some "" |} |} in
  listEvalKeys cwd query st = listEvalKeys cwd None st ∧
  ∀ data keys,
    st !! indexFile cwd = Some data →
    Forall2 (λ line k, parseLineToKey line = Ok k) (index_lines data) keys →
    listEvalKeys cwd query st = (Ok keys, st).
Proof.
  split.
  - by rewrite !listEvalKeys_run.
  - intros data keys Hindex Hkeys%map_throwing_Forall2.
    by rewrite listEvalKeys_run, Hindex, Hkeys.
Qed.

End Guarantees.

(** ** After a successful [delete] *)

Section AfterDelete.

Context `{Codec}.

Variable cwd : path.

Lemma deleteEvalRun_Ok (id : string) (st st' : fs) :
  deleteEvalRun cwd id st = (Ok tt, st') →
  ∃ old, st !! indexFile cwd = Some old ∧
    st' = <[indexFile cwd := Js.join INDEX_DELIMITER
                               (filter (keeps id) (Readline.lines old))
                             +:+ INDEX_DELIMITER]>
            (delete (recordFile cwd id) st).
Proof.
  rewrite deleteEvalRun_run.
  destruct (st !! recordFile cwd id); [|done]. simpl.
  destruct (st !! indexFile cwd) as [old|]; [|done].
  destruct (retained_entries _ _ _) as [entries|] eqn:Hentries; [|done].
  apply retained_entries_Ok in Hentries as [_ ->].
  intros [= <-]. by exists old.
Qed.

(** X1. After a successful [delete] of an id, [load] of that id returns
    absent. *)
Lemma delete_then_load (id : string) (st st' : fs) :
  deleteEvalRun cwd id st = (Ok tt, st') →
  load cwd id st' = (Ok None, st').
Proof.
  intros (old & _ & ->)%deleteEvalRun_Ok. rewrite load_run.
  rewrite lookup_insert_ne by (by apply not_eq_sym, recordFile_not_indexFile).
  by rewrite lookup_delete_eq.
Qed.

(** X2. When the rebuild of a successful [delete] retains a line, the
    [list] that follows reads the retained lines back: it succeeds, with
    the keys of the other runs in their order and no key of the deleted
    run. *)
Lemma delete_then_list (id : string) (st st' : fs) (old : string) :
  deleteEvalRun cwd id st = (Ok tt, st') →
  st !! indexFile cwd = Some old →
  filter (keeps id) (Readline.lines old) ≠ [] →
  ∃ keys, listEvalKeys cwd None st' = (Ok keys, st') ∧
          Forall2 (λ line k, parseLineToKey line = Ok k)
            (filter (keeps id) (Readline.lines old)) keys ∧
          Forall (λ k, evalRunId k ≠ id) keys.
Proof.
  intros (old' & Hold' & ->)%deleteEvalRun_Ok Hold Hretained.
  assert (old' = old) as -> by congruence.
  set (retained := filter (keeps id) (Readline.lines old)) in *.
  destruct (kept_lines_parse id retained) as (keys & Hparse & Hids).
  { apply Forall_forall. by intros line [? _]%list_elem_of_filter. }
  exists keys. split; [|done].
  apply (listEvalKeys_all cwd _ _ keys (lookup_insert_eq _ _ _)).
  rewrite index_lines_delimited. unfold INDEX_DELIMITER.
  rewrite split_join; [done.. |].
  apply Forall_forall. intros line [_ Hline]%list_elem_of_filter.
  pose proof (lines_no_LF old) as Hlines.
  by eapply Forall_forall in Hlines.
Qed.

(** X3. When the rebuild of a successful [delete] retains no line, the
    index becomes a lone delimiter, which [list] reads as one empty line:
    if the empty text is no key, the [list] that follows fails. *)
Lemma delete_of_last_entries_breaks_list (id : string) (st st' : fs) (old : string) :
  deleteEvalRun cwd id st = (Ok tt, st') →
  st !! indexFile cwd = Some old →
  filter (keeps id) (Readline.lines old) = [] →
  malformed_line "" →
  st' !! indexFile cwd = Some INDEX_DELIMITER ∧
  ∀ query, ∃ e, malformed e ∧ listEvalKeys cwd query st' = (Err e, st').
Proof.
  intros (old' & Hold' & ->)%deleteEvalRun_Ok Hold Hretained Hbad.
  assert (old' = old) as -> by congruence. rewrite Hretained.
  split; [apply lookup_insert_eq |]. intros query.
  apply (listEvalKeys_Err cwd query _ INDEX_DELIMITER "");
    [apply lookup_insert_eq | | done].
  apply elem_of_cons. by left.
Qed.

End AfterDelete.

(** ** After a successful [save] *)

Section AfterSave.

Context `{Codec}.

Variable cwd : path.

(** X4. Index visibility and append order.  On an index that is empty or
    ends with the delimiter, and for a key whose serialisation holds no
    line feed and parses back to the key, [list] after [save] returns the
    keys it returned before, followed by the key of the saved run. *)
Lemma save_then_list (r : EvalRun) (st st' : fs) (data : string) (keys : list EvalRunKey) :
  st !! indexFile cwd = Some data →
  data = "" ∨ ends_with_delimiter data →
  Forall2 (λ line k, parseLineToKey line = Ok k) (index_lines data) keys →
  Js.occurs Readline.LF (JSON_stringify_key (key r)) = false →
  parseLineToKey (JSON_stringify_key (key r)) = Ok (key r) →
  save cwd r st = (Ok tt, st') →
  listEvalKeys cwd None st' = (Ok (keys ++ [key r]), st').
Proof.
  intros Hindex Hshape Hkeys Hline Hparse. rewrite save_run. intros [= <-].
  eapply listEvalKeys_all; [apply lookup_insert_eq |].
  rewrite Hindex. simpl. rewrite <-append_assoc, index_lines_delimited.
  destruct Hshape as [-> | [body ->]].
  - apply Forall2_nil_inv_l in Hkeys as ->. simpl.
    rewrite split_no_sep by done. constructor; [done | constructor].
  - rewrite index_lines_delimited in Hkeys.
    unfold INDEX_DELIMITER. rewrite append_assoc. simpl.
    rewrite split_append_sep.
    rewrite (split_no_sep _ (JSON_stringify_key (key r))) by done.
    apply Forall2_app; [done | constructor; [done | constructor]].
Qed.

End AfterSave.

(** ** The store at work

  The store run over the concrete JSON layer, from the working directory
  [/home/dev/app]. *)

(** An operation that ends with [r] ends in the state it leaves. *)
Lemma IO_run {A : Type} (m : IO A) (st : fs) (r : result A) :
  fst (m st) = r → m st = (r, snd (m st)).
Proof. destruct (m st). by intros <-. Qed.

Section AtWork.

Import Node.

Ltac run := vm_compute; reflexivity.

(** The lines of an index, given as [lines], parse one by one. *)
Ltac parsed_lines lines :=
  match goal with
  | |- Forall2 _ ?read _ =>
      replace read with lines by run;
      repeat (constructor; [run |]); constructor
  end.

Example root_of_the_store : storeRoot cwd = ["home"; "dev"; "app"; ".genkit"; "evals"].
Proof. run. Qed.

Example index_after_one_save :
  one_run !! indexFile cwd = Some (line1 +:+ INDEX_DELIMITER).
Proof. run. Qed.

Example index_after_three_saves :
  three_runs !! indexFile cwd
  = Some (line1 +:+ INDEX_DELIMITER +:+ line2 +:+ INDEX_DELIMITER
            +:+ line3 +:+ INDEX_DELIMITER).
Proof. run. Qed.

(** The examples of the specification: three runs saved with
    [actionRef] a, b, a. *)
Example filter_correctness :
  fst (listEvalKeys cwd (filter_by "a") three_runs) = Ok [r_key run1; r_key run3].
Proof. run. Qed.

Example filter_is_case_sensitive :
  fst (listEvalKeys cwd (filter_by "A") three_runs) = Ok [].
Proof. run. Qed.

(** Of three saved runs, deleting the second leaves [list] returning the
    keys of the first and the third, in that order. *)
Example rewrite_preserves_survivors :
  fst ((deleteEvalRun cwd "r2" ;; listEvalKeys cwd None) three_runs)
  = Ok [r_key run1; r_key run3].
Proof. run. Qed.

Example repeated_save_is_listed_twice :
  fst ((save cwd run1 ;; listEvalKeys cwd None) one_run)
  = Ok [r_key run1; r_key run1].
Proof. run. Qed.

(** C2. The store is initialised, one run is saved and then deleted.
    The delete succeeds and the record is gone, but the index is left
    holding a lone delimiter, and the [list] that follows fails on the
    empty line it reads from it. *)
Theorem delete_of_only_run_breaks_list :
  fst (constructor cwd no_files) = Ok tt ∧
  fst (save cwd run1 fresh) = Ok tt ∧
  one_run !! indexFile cwd = Some (line1 +:+ INDEX_DELIMITER) ∧
  fst (deleteEvalRun cwd "r1" one_run) = Ok tt ∧
  lone_delimiter !! indexFile cwd = Some INDEX_DELIMITER ∧
  fst (load cwd "r1" lone_delimiter) = Ok None ∧
  fst (listEvalKeys cwd None lone_delimiter) = Err SyntaxError.
Proof. split_and!; run. Qed.

Lemma save_then_load_witness :
  valid_run run1 ∧ usable_as_filename "r1" ∧
  ∃ st', save cwd run1 fresh = (Ok tt, st') ∧
         st' !! (storeRoot cwd ++ ["r1.json"]) = Some (@JSON_stringify codec run1) ∧
         load cwd "r1" st' = (Ok (Some run1), st').
Proof.
  assert (Hvalid : valid_run run1) by run.
  assert (Hid : usable_as_filename "r1") by (split; [discriminate | reflexivity]).
  split; [exact Hvalid |]. split; [exact Hid |].
  exact (save_then_load (H := codec) cwd run1 fresh Hvalid Hid).
Defined.

Lemma load_outcomes_witness :
  load cwd "r1" fresh = (Ok None, fresh) ∧
  load cwd "r1" one_run = (Ok (Some run1), one_run) ∧
  ∃ e, malformed e ∧ load cwd "r1" broken_record = (Err e, broken_record).
Proof.
  split; [| split].
  - apply (load_outcomes (H := codec) cwd "r1" fresh). run.
  - destruct (load_outcomes (H := codec) cwd "r1" one_run) as [_ Hfile].
    apply (Hfile (@JSON_stringify codec run1)) with (v := run_to_json run1) (r := run1); run.
  - destruct (load_outcomes (H := codec) cwd "r1" broken_record) as [_ Hfile].
    apply (Hfile "{"); [run |]. left. run.
Defined.

Lemma delete_absent_fails_witness :
  deleteEvalRun cwd "r1" fresh = (Err (CannotFindEvalRun "r1"), fresh) ∧
  deleteEvalRun cwd "r1" lone_delimiter
    = (Err (CannotFindEvalRun "r1"), lone_delimiter).
Proof.
  split.
  - apply (proj1 (delete_absent_fails (H := codec) cwd "r1" fresh)). run.
  - apply (proj2 (delete_absent_fails (H := codec) cwd "r1" one_run)).
    apply IO_run. run.
Defined.

(** C5, as stated, fails for the empty filter: the index holds one key
    whose [actionRef] is a, the query asks for the [actionRef] that is the
    empty string, and [list] returns that key although no key has the
    [actionRef] asked for. *)
Lemma empty_filter_lists_other_actionRef :
  one_run !! indexFile cwd = Some (line1 +:+ INDEX_DELIMITER) ∧
  fst (listEvalKeys cwd (filter_by "") one_run) = Ok [r_key run1] ∧
  filter (λ k, k_actionRef k = "") [r_key run1] = [].
Proof. split_and!; run. Qed.

Lemma list_filters_by_actionRef_witness :
  ∃ keys, listEvalKeys cwd (filter_by "a") three_runs = (Ok keys, three_runs) ∧
          keys = [r_key run1; r_key run3].
Proof.
  eexists. split.
  - apply (list_filters_by_actionRef (H := codec) cwd (filter_by "a") three_runs
             (line1 +:+ INDEX_DELIMITER +:+ line2 +:+ INDEX_DELIMITER
                +:+ line3 +:+ INDEX_DELIMITER)
             [r_key run1; r_key run2; r_key run3]).
    + run.
    + parsed_lines [line1; line2; line3].
  - run.
Defined.

Lemma list_fails_on_bad_line_witness :
  ∃ e, malformed e ∧
       listEvalKeys cwd None broken_index = (Err e, broken_index).
Proof.
  apply (list_fails_on_bad_line (H := codec) cwd None broken_index
           (line1 +:+ INDEX_DELIMITER +:+ "oops" +:+ INDEX_DELIMITER) "oops").
  - run.
  - discriminate.
  - vm_compute. apply elem_of_cons. right. apply elem_of_cons. by left.
  - left. run.
Defined.

Lemma index_ends_with_delimiter_witness :
  (∃ data, one_run !! indexFile cwd = Some data ∧ ends_with_delimiter data) ∧
  (∃ data, lone_delimiter !! indexFile cwd = Some data ∧ ends_with_delimiter data).
Proof.
  split.
  - destruct (index_ends_with_delimiter (H := codec) cwd (@Save codec run1) fresh one_run)
      as (data & Hdata & Hends & _); [apply IO_run; run |].
    exists data. split; [exact Hdata | exact Hends].
  - destruct (index_ends_with_delimiter (H := codec) cwd (@Delete codec "r1")
                one_run lone_delimiter)
      as (data & Hdata & Hends & _); [apply IO_run; run |].
    exists data. split; [exact Hdata | exact Hends].
Defined.

Lemma fresh_store_is_empty_witness :
  ∃ st, constructor cwd no_files = (Ok tt, st) ∧
        st !! indexFile cwd = Some "" ∧
        (∀ query, listEvalKeys cwd query st = (Ok [], st)) ∧
        (∀ id, load cwd id st = (Ok None, st)).
Proof.
  apply (fresh_store_is_empty (H := codec) cwd no_files).
  - apply lookup_empty.
  - intros id. apply lookup_empty.
Defined.

Lemma delete_not_atomic_witness :
  ∃ e st', malformed e ∧ deleteEvalRun cwd "r1" broken_index = (Err e, st') ∧
           st' = delete (recordFile cwd "r1") broken_index ∧
           st' !! recordFile cwd "r1" = None ∧
           st' !! indexFile cwd
             = Some (line1 +:+ INDEX_DELIMITER +:+ "oops" +:+ INDEX_DELIMITER).
Proof.
  apply (delete_not_atomic_on_malformed_index (H := codec) cwd "r1" broken_index
           (@JSON_stringify codec run1) _ "oops").
  - run.
  - run.
  - vm_compute. apply elem_of_cons. right. apply elem_of_cons. by left.
  - left. run.
Defined.

Lemma empty_filter_is_no_filter_witness :
  listEvalKeys cwd (filter_by "") three_runs = listEvalKeys cwd None three_runs ∧
  listEvalKeys cwd (filter_by "") three_runs
    = (Ok [r_key run1; r_key run2; r_key run3], three_runs).
Proof.
  destruct (empty_filter_is_no_filter (H := codec) cwd three_runs) as [Hsame Hall].
  split; [exact Hsame |].
  apply (Hall (line1 +:+ INDEX_DELIMITER +:+ line2 +:+ INDEX_DELIMITER
                 +:+ line3 +:+ INDEX_DELIMITER)).
  - run.
  - parsed_lines [line1; line2; line3].
Defined.

Lemma delete_then_load_witness :
  load cwd "r1" lone_delimiter = (Ok None, lone_delimiter).
Proof.
  apply (delete_then_load (H := codec) cwd "r1" one_run lone_delimiter).
  apply IO_run. run.
Defined.

Lemma delete_then_list_witness :
  let st' := snd (deleteEvalRun cwd "r2" three_runs) in
  ∃ keys, listEvalKeys cwd None st' = (Ok keys, st') ∧
          Forall (λ k, evalRunId k ≠ "r2") keys.
Proof.
  destruct (delete_then_list (H := codec) cwd "r2" three_runs
              (snd (deleteEvalRun cwd "r2" three_runs))
              (line1 +:+ INDEX_DELIMITER +:+ line2 +:+ INDEX_DELIMITER
                 +:+ line3 +:+ INDEX_DELIMITER))
    as (keys & Hlist & _ & Hids).
  - apply IO_run. run.
  - run.
  - intros Hnone. vm_compute in Hnone. discriminate Hnone.
  - exists keys. split; [exact Hlist | exact Hids].
Defined.

Lemma delete_of_last_entries_witness :
  lone_delimiter !! indexFile cwd = Some INDEX_DELIMITER ∧
  ∀ query, ∃ e, malformed e ∧
    listEvalKeys cwd query lone_delimiter = (Err e, lone_delimiter).
Proof.
  apply (delete_of_last_entries_breaks_list (H := codec) cwd "r1"
           one_run lone_delimiter (line1 +:+ INDEX_DELIMITER)).
  - apply IO_run. run.
  - run.
  - run.
  - left. run.
Defined.

Lemma save_then_list_witness :
  let st' := snd (save cwd run2 one_run) in
  listEvalKeys cwd None st' = (Ok [r_key run1; r_key run2], st').
Proof.
  apply (save_then_list (H := codec) cwd run2 one_run _
           (line1 +:+ INDEX_DELIMITER) [r_key run1]).
  - run.
  - right. by exists line1.
  - parsed_lines [line1].
  - run.
  - run.
  - apply IO_run. run.
Defined.

End AtWork.

(** * Further properties *)

(** ** Where the files are *)

Lemma length_append (a b : string) :
  String.length (a +:+ b) = String.length a + String.length b.
Proof. induction a as [|c a IH]; simpl; [done | by rewrite IH]. Qed.

Lemma append_inj_same_length (a b c d : string) :
  String.length a = String.length b → a +:+ c = b +:+ d → a = b.
Proof.
  revert b. induction a as [|x a IH]; intros [|y b]; simpl; try done.
  intros [= Hlen] [= -> Heq]. f_equal. by apply IH.
Qed.

Lemma append_inj_r (a b c : string) : a +:+ c = b +:+ c → a = b.
Proof.
  intros Heq. apply (append_inj_same_length a b c c); [|done].
  apply (f_equal String.length) in Heq. rewrite !length_append in Heq. lia.
Qed.

Section Places.

Context `{Codec}.

Variable cwd : path.

Lemma storeRoot_unfold : storeRoot cwd = cwd ++ [".genkit"; "evals"].
Proof.
  unfold storeRoot, generateRootPath, Path.resolve. simpl.
  unfold Path.normalize_segment. simpl.
  by rewrite rev_involutive, <-app_assoc.
Qed.

Lemma rev_storeRoot : rev (storeRoot cwd) = "evals" :: ".genkit" :: rev cwd.
Proof. rewrite storeRoot_unfold, rev_app_distr. done. Qed.

Lemma recordFile_inj (id1 id2 : string) :
  usable_as_filename id1 → usable_as_filename id2 →
  recordFile cwd id1 = recordFile cwd id2 → id1 = id2.
Proof.
  intros [_ Hid1] [_ Hid2]. unfold recordFile, generateFileName.
  rewrite !resolve_usable_name by done.
  intros [= Heq]%app_inv_head. by apply append_inj_r in Heq.
Qed.

(** X6. No record file is the index file, whatever the id; and two
    ids usable as file names have the same record file only when they are
    the same id. *)
Theorem record_files_distinct :
  (∀ id, recordFile cwd id ≠ indexFile cwd) ∧
  (∀ id1 id2,
     usable_as_filename id1 → usable_as_filename id2 →
     recordFile cwd id1 = recordFile cwd id2 → id1 = id2).
Proof.
  split; [apply recordFile_not_indexFile | apply recordFile_inj].
Qed.

(** X7. Ids are not confined to the store root.  For a name [x] without
    separator: the record file of the id [../x] lies in the parent of
    the root; that of [/x] lies at the root of the file system; that of
    [./x] is the record file of [x]; and [save] of a run whose id is
    [../x] writes the run there. *)
Theorem ids_are_not_sanitised (x : string) :
  Js.occurs Path.sep x = false →
  recordFile cwd ("../" +:+ x) = cwd ++ [".genkit"; x +:+ ".json"] ∧
  recordFile cwd ("/" +:+ x) = [x +:+ ".json"] ∧
  recordFile cwd ("./" +:+ x) = recordFile cwd x ∧
  ∀ r st, evalRunId (key r) = "../" +:+ x →
    snd (save cwd r st) !! (cwd ++ [".genkit"; x +:+ ".json"])
      = Some (JSON_stringify r).
Proof.
  intros Hx.
  assert (Hname : Js.occurs Path.sep (x +:+ ".json") = false)
    by (by rewrite occurs_append, Hx).
  assert (Hup : recordFile cwd ("../" +:+ x) = cwd ++ [".genkit"; x +:+ ".json"]).
  { unfold recordFile, generateFileName, Path.resolve.
    change (("../" +:+ x) +:+ ".json")
      with (".." +:+ String Path.sep (x +:+ ".json")).
    rewrite split_first_piece, split_no_sep by done.
    rewrite rev_storeRoot. simpl. unfold Path.normalize_segment at 2. simpl.
    unfold Path.normalize_segment.
    rewrite (decide_False (P := _ ∨ _)) by apply json_name_not_skipped.
    rewrite decide_False by apply json_name_not_parent.
    simpl. by rewrite rev_involutive, <-app_assoc. }
  split_and!; [done | | |].
  - unfold recordFile, generateFileName, Path.resolve.
    change (("/" +:+ x) +:+ ".json")
      with ("" +:+ String Path.sep (x +:+ ".json")).
    rewrite split_first_piece, split_no_sep by done. simpl.
    unfold Path.normalize_segment at 2. simpl. unfold Path.normalize_segment.
    rewrite (decide_False (P := _ ∨ _)) by apply json_name_not_skipped.
    by rewrite decide_False by apply json_name_not_parent.
  - unfold recordFile at 1. unfold generateFileName, Path.resolve.
    change (("./" +:+ x) +:+ ".json")
      with ("." +:+ String Path.sep (x +:+ ".json")).
    rewrite split_first_piece, split_no_sep by done. simpl.
    unfold Path.normalize_segment at 2. simpl.
    unfold recordFile, generateFileName, Path.resolve.
    rewrite split_no_sep by done.
    replace (Path.is_absolute (x +:+ ".json")) with false; [done |].
    destruct x as [|c x]; [done |]. simpl in *.
    by apply orb_false_elim in Hx as [-> _].
  - intros r st Hid. rewrite save_run. simpl. rewrite Hid, Hup.
    rewrite lookup_insert_ne.
    + apply lookup_insert_eq.
    + rewrite <-Hup. by apply not_eq_sym, recordFile_not_indexFile.
Qed.




End Places.

(** ** The cached store *)

(** X9. Once [getEvalStore] has returned a store, it returns that same
    store again and touches no file, also after the working directory has
    changed: the root is bound when the store is first built. *)
Theorem getEvalStore_is_cached (p p1 : process) (store : Store) (dir : path) :
  getEvalStore p = (Ok store, p1) →
  getEvalStore p1 = (Ok store, p1) ∧
  getEvalStore (chdir dir p1) = (Ok store, chdir dir p1).
Proof.
  unfold getEvalStore at 1.
  destruct (cachedEvalStore p) as [cached|] eqn:Hcache.
  - intros [= <- <-]. unfold getEvalStore, chdir. simpl. by rewrite Hcache.
  - unfold new_LocalFileEvalStore.
    destruct (constructor (proc_cwd p) (proc_files p)) as [[[]|e] files]; [|done].
    by intros [= <- <-].
Qed.


(** ** Reading the index *)

Section Reading.

Context `{Codec}.

Variable cwd : path.



(** X12. Whether [list] fails, and with what, does not depend on the
    query: with any query it fails as it does with none, and when it
    succeeds it returns keys of the unfiltered list, in their order.  It
    changes no file either way. *)
Theorem list_outcome_independent_of_query
    (query : option ListEvalKeysRequest) (st : fs) :
  snd (listEvalKeys cwd query st) = st ∧
  match fst (listEvalKeys cwd None st) with
  | Err e => fst (listEvalKeys cwd query st) = Err e
  | Ok keys =>
      ∃ keys', fst (listEvalKeys cwd query st) = Ok keys' ∧ keys' `sublist_of` keys
  end.
Proof.
  rewrite !listEvalKeys_run.
  destruct (st !! indexFile cwd) as [data|]; [|done].
  destruct (map_throwing _ _) as [keys|]; [|done]. simpl. split; [done |].
  destruct (query_actionRef query) as [wanted|]; [|by exists keys].
  destruct (Js.truthy wanted); [|by exists keys].
  eexists. split; [done |]. apply sublist_filter.
Qed.

Lemma only_LF_cons (c : ascii) (text : string) :
  only_LF_ends_lines (String c text) →
  c ≠ Readline.CR ∧ c ≠ "226"%char ∧ only_LF_ends_lines text.
Proof.
  intros [[Hcr Hcrs]%orb_false_elim [Hls Hlss]%orb_false_elim].
  apply bool_decide_eq_false in Hcr, Hls. by repeat split.
Qed.

Lemma lines_delimited (body : string) :
  only_LF_ends_lines body →
  Readline.lines (body +:+ INDEX_DELIMITER) = Js.split Readline.LF body.
Proof.
  induction body as [|c body IH]; [done |].
  intros (Hcr & Hls & Hbody)%only_LF_cons.
  change (String c body +:+ INDEX_DELIMITER) with (String c (body +:+ INDEX_DELIMITER)).
  cbn [Readline.lines Js.split]. rewrite IH by done.
  case_decide; [done |].
  rewrite (decide_False (P := c = Readline.CR)) by done.
  by rewrite (decide_False (P := c = "226"%char)) by done.
Qed.

(** X13. On an index that is empty or ends with the delimiter, and in
    which only the line feed ends a line, the rebuild of [delete] reads
    the very lines that [list] reads. *)
Theorem readers_agree (data : string) :
  data = "" ∨ ends_with_delimiter data →
  only_LF_ends_lines data →
  Readline.lines data = index_lines data.
Proof.
  intros [-> | [body ->]] [Hcr Hls]; [done |].
  rewrite index_lines_delimited. apply lines_delimited.
  rewrite occurs_append in Hcr, Hls.
  apply orb_false_elim in Hcr as [? _], Hls as [? _]. by split.
Qed.

End Reading.

(** ** Changing the store *)

Section Changing.

Context `{Codec}.

Variable cwd : path.

Lemma retained_entries_total (id : string) (lines entries : list string) :
  Forall (λ line, ∃ k, parseLineToKey line = Ok k) lines →
  retained_entries id lines entries = Ok (entries ++ filter (keeps id) lines).
Proof.
  intros Hall. revert entries.
  induction Hall as [|line lines [k Hk] _ IH]; intros entries; simpl.
  - by rewrite app_nil_r.
  - assert (Hkeeps : keeps id line = bool_decide (evalRunId k ≠ id))
      by (unfold keeps; by rewrite Hk).
    rewrite Hk, IH, filter_cons.
    destruct (decide (evalRunId k ≠ id)) as [Hne | Heq].
    + rewrite decide_True by (rewrite Hkeeps; by apply bool_decide_pack).
      by rewrite <-app_assoc.
    + rewrite decide_False; [done |].
      rewrite Hkeeps. by intros ?%bool_decide_unpack.
Qed.

Lemma well_formed_line (line : string) :
  ¬ malformed_line line ↔ ∃ k, parseLineToKey line = Ok k.
Proof.
  rewrite parseLineToKey_Err. destruct (parseLineToKey line) as [k|e].
  - split; [eauto | by intros _ [? ?]].
  - split; [intros []; eauto | by intros [? ?]].
Qed.

(** What a change does to the files: only the record file of its run
    and the index can differ afterwards. *)
Lemma apply_mutation_others (m : mutation) (st : fs) (p : path) :
  p ≠ recordFile cwd (mutation_id m) → p ≠ indexFile cwd →
  snd (apply_mutation cwd m st) !! p = st !! p.
Proof.
  intros Hrecord Hindex.
  destruct m as [r | id]; unfold apply_mutation, mutation_id in *.
  - rewrite save_run. simpl.
    by rewrite !lookup_insert_ne by (by apply not_eq_sym).
  - rewrite deleteEvalRun_run.
    destruct (st !! recordFile cwd id); [|done]. simpl.
    destruct (st !! indexFile cwd); simpl.
    + destruct (retained_entries _ _ _); simpl.
      * rewrite lookup_insert_ne by (by apply not_eq_sym).
        by apply lookup_delete_ne, not_eq_sym.
      * by apply lookup_delete_ne, not_eq_sym.
    + by apply lookup_delete_ne, not_eq_sym.
Qed.

(** What a change does to the index: it is left as it was, or it ends
    with the delimiter. *)
Lemma apply_mutation_index (m : mutation) (st : fs) :
  snd (apply_mutation cwd m st) !! indexFile cwd = st !! indexFile cwd ∨
  ∃ body, snd (apply_mutation cwd m st) !! indexFile cwd
            = Some (body +:+ INDEX_DELIMITER).
Proof.
  destruct m as [r | id]; unfold apply_mutation.
  - right. rewrite save_run. simpl. rewrite lookup_insert_eq.
    eexists. by rewrite <-append_assoc.
  - rewrite deleteEvalRun_run.
    destruct (st !! recordFile cwd id); [|by left]. simpl.
    pose proof (recordFile_not_indexFile cwd id) as Hne.
    destruct (st !! indexFile cwd) eqn:Hindex; simpl.
    + destruct (retained_entries _ _ _); simpl.
      * right. rewrite lookup_insert_eq. by eexists.
      * left. by rewrite lookup_delete_ne.
    + left. by rewrite lookup_delete_ne.
Qed.

(** X14. The shape [list] relies on is kept by every sequence of [save]
    and [delete] calls, failed ones included: an index that is empty or
    ends with the delimiter is so afterwards. *)
Theorem index_stays_tidy (ms : list mutation) (st : fs) :
  tidy_index cwd st → tidy_index cwd (run_mutations cwd ms st).
Proof.
  revert st. induction ms as [|m ms IH]; intros st Htidy; [done |].
  apply IH. destruct Htidy as (data & Hdata & Hshape).
  destruct (apply_mutation_index m st) as [Hsame | [body Hbody]].
  - exists data. by rewrite Hsame.
  - exists (body +:+ INDEX_DELIMITER). split; [done |]. right. by exists body.
Qed.

Lemma leading_delimiter_lines (rest : string) :
  "" ∈ index_lines (INDEX_DELIMITER +:+ rest) ∧
  "" ∈ Readline.lines (INDEX_DELIMITER +:+ rest).
Proof.
  split.
  - unfold index_lines. simpl. destruct rest as [|c rest]; simpl.
    + apply elem_of_cons. by left.
    + apply elem_of_cons. by left.
  - simpl. apply elem_of_cons. by left.
Qed.

Lemma leading_delimiter_kept (m : mutation) (st : fs) :
  malformed_line "" →
  index_starts_with_delimiter cwd st →
  index_starts_with_delimiter cwd (snd (apply_mutation cwd m st)).
Proof.
  intros Hbad [rest Hindex]. destruct m as [r | id]; unfold apply_mutation.
  - exists (rest +:+ JSON_stringify_key (key r) +:+ INDEX_DELIMITER).
    rewrite save_run. simpl. by rewrite lookup_insert_eq, Hindex.
  - rewrite deleteEvalRun_run.
    destruct (st !! recordFile cwd id); [|by exists rest]. simpl.
    rewrite Hindex.
    destruct (retained_entries_Err id (Readline.lines (INDEX_DELIMITER +:+ rest)) [] "")
      as (e & _ & ->); [apply leading_delimiter_lines | done |].
    exists rest. simpl.
    by rewrite lookup_delete_ne by apply recordFile_not_indexFile.
Qed.

(** X15. An index that starts with the delimiter, as the one a [delete]
    of the last run leaves, never recovers when the empty text is no key:
    after any sequence of [save] and [delete] calls it still starts with
    the delimiter and [list] still fails, whatever the query. *)
Theorem index_never_recovers (ms : list mutation) (st : fs) :
  malformed_line "" →
  index_starts_with_delimiter cwd st →
  index_starts_with_delimiter cwd (run_mutations cwd ms st) ∧
  ∀ query, ∃ e, malformed e ∧
    fst (listEvalKeys cwd query (run_mutations cwd ms st)) = Err e.
Proof.
  intros Hbad. revert st. induction ms as [|m ms IH]; intros st Hstart.
  - split; [done |]. intros query. destruct Hstart as [rest Hindex].
    destruct (listEvalKeys_Err cwd query st _ "" Hindex) as (e & He & Hlist);
      [apply leading_delimiter_lines | done |].
    exists e. unfold run_mutations. simpl. by rewrite Hlist.
  - apply IH. by apply leading_delimiter_kept.
Qed.






(** X18. A change of one run leaves the other runs alone.  For ids
    usable as file names, what [load] returns for an id is the same
    before and after a [save] or [delete] of another id, whether that
    call succeeds or fails. *)
Theorem mutation_leaves_other_runs (m : mutation) (id : string) (st : fs) :
  usable_as_filename (mutation_id m) →
  usable_as_filename id →
  id ≠ mutation_id m →
  snd (apply_mutation cwd m st) !! recordFile cwd id = st !! recordFile cwd id ∧
  fst (load cwd id (snd (apply_mutation cwd m st))) = fst (load cwd id st).
Proof.
  intros Hm Hid Hne.
  assert (Hsame : snd (apply_mutation cwd m st) !! recordFile cwd id
                  = st !! recordFile cwd id).
  { apply apply_mutation_others; [| apply recordFile_not_indexFile].
    intros Heq. by apply Hne, (recordFile_inj cwd). }
  split; [done |]. rewrite !load_run, Hsame.
  destruct (st !! recordFile cwd id) as [data|]; [|done].
  by destruct (parseRecord data).
Qed.

(** X19. [delete] succeeds exactly when the record file exists, the
    index exists and every line the rebuild reads from it is a key; the
    files are then the old ones without the record, the index rewritten
    to the lines of the other runs. *)
Theorem delete_succeeds_iff (id : string) (st st' : fs) :
  deleteEvalRun cwd id st = (Ok tt, st') ↔
  is_Some (st !! recordFile cwd id) ∧
  ∃ old, st !! indexFile cwd = Some old ∧
    Forall (λ line, ¬ malformed_line line) (Readline.lines old) ∧
    st' = <[indexFile cwd := Js.join INDEX_DELIMITER
                               (filter (keeps id) (Readline.lines old))
                             +:+ INDEX_DELIMITER]>
            (delete (recordFile cwd id) st).
Proof.
  rewrite deleteEvalRun_run. split.
  - destruct (st !! recordFile cwd id); [|done]. simpl.
    destruct (st !! indexFile cwd) as [old|]; [|done].
    destruct (retained_entries _ _ _) as [entries|] eqn:Hentries; [|done].
    apply retained_entries_Ok in Hentries as [Hall ->].
    intros [= <-]. split; [done |]. exists old. split_and!; [done | | done].
    eapply Forall_impl; [done |]. intros line. by rewrite well_formed_line.
  - intros [[record ->] (old & -> & Hall & ->)]. simpl.
    rewrite retained_entries_total; [done |].
    eapply Forall_impl; [done |]. intros line. by rewrite well_formed_line.
Qed.


Lemma kept_lines_keys (id : string) (lines : list string) (keys : list EvalRunKey) :
  Forall2 (λ line k, parseLineToKey line = Ok k) lines keys →
  Forall2 (λ line k, parseLineToKey line = Ok k)
    (filter (keeps id) lines) (filter (λ k, evalRunId k ≠ id) keys).
Proof.
  induction 1 as [|line k lines keys Hk _ IH]; [constructor |].
  assert (Hkeeps : keeps id line = bool_decide (evalRunId k ≠ id))
    by (unfold keeps; by rewrite Hk).
  rewrite !filter_cons.
  destruct (decide (evalRunId k ≠ id)) as [Hne | Heq].
  - rewrite decide_True by (rewrite Hkeeps; by apply bool_decide_pack).
    by constructor.
  - rewrite decide_False; [done |].
    rewrite Hkeeps. by intros ?%bool_decide_unpack.
Qed.

(** X5. The rewrite of the index preserves the survivors.  On an index
    that ends with the delimiter, in which only the line feed ends a
    line, and that lists as [keys]: [delete] of a run whose record
    exists succeeds, and, when a key of another run is listed, [list]
    then returns [keys] without the keys of the deleted run, the others
    in their order. *)
Theorem delete_preserves_survivors
    (id : string) (st : fs) (old : string) (keys : list EvalRunKey) :
  is_Some (st !! recordFile cwd id) →
  st !! indexFile cwd = Some old →
  ends_with_delimiter old →
  only_LF_ends_lines old →
  listEvalKeys cwd None st = (Ok keys, st) →
  filter (λ k, evalRunId k ≠ id) keys ≠ [] →
  ∃ st', deleteEvalRun cwd id st = (Ok tt, st') ∧
         listEvalKeys cwd None st'
           = (Ok (filter (λ k, evalRunId k ≠ id) keys), st').
Proof.
  intros [record Hrecord] Hindex [body ->] [Hcr Hls] Hlist Hsurvivors.
  assert (Hkeys : Forall2 (λ line k, parseLineToKey line = Ok k)
                    (Js.split Readline.LF body) keys).
  { rewrite listEvalKeys_run, Hindex, index_lines_delimited in Hlist.
    apply map_throwing_Forall2.
    destruct (map_throwing _ _); [|done]. by injection Hlist as ->. }
  assert (Hlines : Readline.lines (body +:+ INDEX_DELIMITER)
                   = Js.split Readline.LF body).
  { apply lines_delimited. rewrite occurs_append in Hcr, Hls.
    apply orb_false_elim in Hcr as [? _], Hls as [? _]. by split. }
  eexists. rewrite deleteEvalRun_run, Hrecord, Hindex. simpl.
  rewrite Hlines, retained_entries_total.
  2: { eapply Forall2_Forall_l; [done |]. apply Forall_forall. eauto. }
  split; [done |]. simpl.
  pose proof (kept_lines_keys id _ _ Hkeys) as Hkept.
  apply (listEvalKeys_all cwd _ _ _ (lookup_insert_eq _ _ _)).
  rewrite index_lines_delimited. unfold INDEX_DELIMITER.
  rewrite split_join; [done | |].
  - intros Hnone. rewrite Hnone in Hkept.
    by apply Forall2_nil_inv_l in Hkept.
  - apply Forall_forall. intros line [_ Hline]%list_elem_of_filter.
    pose proof (lines_no_LF (body +:+ INDEX_DELIMITER)) as Hno.
    rewrite Hlines in Hno. by eapply Forall_forall in Hno.
Qed.

End Changing.

(** ** The store at work, continued *)

Lemma run_result {A B : Type} (x : A * B) (a : A) : fst x = a → x = (a, snd x).
Proof. destruct x. by intros <-. Qed.

Section AtWorkAgain.

Import Node.

Ltac run := vm_compute; reflexivity.

Ltac parsed_lines lines :=
  match goal with
  | |- Forall2 _ ?read _ =>
      replace read with lines by run;
      repeat (constructor; [run |]); constructor
  end.

Lemma ids_are_not_sanitised_witness :
  snd (save cwd run_outside fresh) !! ["home"; "dev"; "app"; ".genkit"; "x.json"]
  = Some (@JSON_stringify codec run_outside).
Proof.
  destruct (ids_are_not_sanitised (H := codec) cwd "x" eq_refl)
    as (_ & _ & _ & Hsave).
  exact (Hsave run_outside fresh eq_refl).
Defined.

Lemma getEvalStore_is_cached_witness :
  let store := {| this_storeRoot := storeRoot cwd; this_indexFile := indexFile cwd |} in
  let p1 := snd (getEvalStore started) in
  getEvalStore p1 = (Ok store, p1) ∧
  getEvalStore (chdir elsewhere p1) = (Ok store, chdir elsewhere p1).
Proof.
  apply (getEvalStore_is_cached started). apply run_result. run.
Defined.


Lemma readers_agree_witness : Readline.lines three_lines = index_lines three_lines.
Proof.
  apply readers_agree.
  - right.
    by exists (line1 +:+ INDEX_DELIMITER +:+ line2 +:+ INDEX_DELIMITER +:+ line3).
  - split; run.
Defined.

Lemma index_stays_tidy_witness :
  tidy_index cwd
    (run_mutations cwd
       [@Save codec run1; Delete "r9"; Delete "r1"; Save run2] fresh).
Proof.
  apply (index_stays_tidy (H := codec)).
  exists "". split; [run | by left].
Defined.

Lemma index_never_recovers_witness :
  let st := run_mutations cwd [@Save codec run2; Delete "r2"] lone_delimiter in
  index_starts_with_delimiter cwd st ∧
  ∀ query, ∃ e, malformed e ∧ fst (listEvalKeys cwd query st) = Err e.
Proof.
  apply (index_never_recovers (H := codec)).
  - left. run.
  - exists "". run.
Defined.



Lemma mutation_leaves_other_runs_witness :
  let st' := snd (deleteEvalRun cwd "r2" three_runs) in
  st' !! recordFile cwd "r1" = three_runs !! recordFile cwd "r1" ∧
  fst (load cwd "r1" st') = fst (load cwd "r1" three_runs).
Proof.
  apply (mutation_leaves_other_runs (H := codec) cwd (Delete "r2") "r1" three_runs).
  - split; [discriminate | reflexivity].
  - split; [discriminate | reflexivity].
  - discriminate.
Defined.


Lemma delete_preserves_survivors_witness :
  ∃ st', deleteEvalRun cwd "r2" three_runs = (Ok tt, st') ∧
    ∃ keys, listEvalKeys cwd None st' = (Ok keys, st') ∧
            keys = [r_key run1; r_key run3].
Proof.
  destruct (delete_preserves_survivors (H := codec) cwd "r2" three_runs three_lines
              [r_key run1; r_key run2; r_key run3])
    as (st' & Hdelete & Hlist).
  - exists (@JSON_stringify codec run2). run.
  - run.
  - by exists (line1 +:+ INDEX_DELIMITER +:+ line2 +:+ INDEX_DELIMITER +:+ line3).
  - split; run.
  - apply (listEvalKeys_all (H := codec) cwd three_runs three_lines); [run |].
    parsed_lines [line1; line2; line3].
  - intros Hnone. vm_compute in Hnone. discriminate Hnone.
  - exists st'. split; [exact Hdelete |]. eexists. split; [exact Hlist | run].
Defined.

End AtWorkAgain.
